(** * goenums: the serialization core of package [enums]

    A shallow embedding of the primitive codec ([anyToString],
    [parseStringValue], [anyToBinary], [parseBinaryValue]), of the
    type-coercing [GenericScanner], of [convertToTargetType] and of the
    format codecs built on them, followed by the properties of the
    specification that they satisfy or break. *)

From Stdlib Require Import ZArith List String Ascii Bool Lia.
From Stdlib.Strings Require Import Byte.
Import ListNotations.

#[local] Set Warnings "-register-all".

Local Open Scope string_scope.
Local Open Scope Z_scope.

(** ** Go types and dynamically typed values *)

(** The ten integer kinds of Go. [int] and [uint] are 64 bits wide, as on
    every 64-bit platform. *)
Inductive IntKind : Type :=
| Int | Int8 | Int16 | Int32 | Int64
| Uint | Uint8 | Uint16 | Uint32 | Uint64.

(** Go types ([reflect.Type]) that the codecs meet.  [[]byte] is
    [TSlice (TInt Uint8)]. *)
Inductive typ : Type :=
| TNil
| TInt (k : IntKind)
| TFloat32
| TFloat64
| TBool
| TString
| TSlice (elem : typ)
| TPtr (elem : typ)
| TTime
| TStruct (name : string).

Definition TBytes : typ := TSlice (TInt Uint8).

(** A value of Go's [any].  Integers are carried as [Z] together with their
    kind; floats are carried as their IEEE-754 bit pattern; a pointer is
    [None] when nil and [Some] of its pointee otherwise; [VTime] is a
    timestamp in nanoseconds; [VOther] stands for a value of any other
    type (a struct, a map, a slice of something that is not a byte).
    The values are those of Go's built-in types.  A value of a defined
    type, such as [type Status int], has no constructor of its own: the
    type switches of the source match built-in types only, and what
    they do with a value of a defined type (the default case) is not
    covered. *)
Inductive any : Type :=
| VNil
| VInt (k : IntKind) (z : Z)
| VFloat32 (bits : Z)
| VFloat64 (bits : Z)
| VBool (b : bool)
| VString (s : string)
| VBytes (b : list byte)
| VPtr (elem : typ) (p : option any)
| VTime (t : Z)
| VOther (t : typ).

Definition signed (k : IntKind) : bool :=
  match k with
  | Int | Int8 | Int16 | Int32 | Int64 => true
  | _ => false
  end.

Definition bitSize (k : IntKind) : Z :=
  match k with
  | Int8 | Uint8 => 8
  | Int16 | Uint16 => 16
  | Int32 | Uint32 => 32
  | Int | Int64 | Uint | Uint64 => 64
  end.

Definition minOf (k : IntKind) : Z :=
  if signed k then - 2 ^ (bitSize k - 1) else 0.

Definition maxOf (k : IntKind) : Z :=
  if signed k then 2 ^ (bitSize k - 1) - 1 else 2 ^ bitSize k - 1.

Definition inRange (k : IntKind) (z : Z) : Prop := minOf k <= z <= maxOf k.

Definition inRangeb (k : IntKind) (z : Z) : bool :=
  (minOf k <=? z) && (z <=? maxOf k).

(** Go's integer conversion [K(z)]: keep the low [bitSize K] bits and read
    them as signed or unsigned. *)
Definition wrap (k : IntKind) (z : Z) : Z :=
  let m := 2 ^ bitSize k in
  let r := z mod m in
  if signed k && (2 ^ (bitSize k - 1) <=? r) then r - m else r.

Definition typeOf (v : any) : typ :=
  match v with
  | VNil => TNil
  | VInt k _ => TInt k
  | VFloat32 _ => TFloat32
  | VFloat64 _ => TFloat64
  | VBool _ => TBool
  | VString _ => TString
  | VBytes _ => TBytes
  | VPtr t _ => TPtr t
  | VTime _ => TTime
  | VOther t => t
  end.

(** Types whose values the model keeps opaque: structs, and slices of
    anything but bytes. *)
Definition opaqueType (t : typ) : bool :=
  match t with
  | TStruct _ => true
  | TSlice (TInt Uint8) => false
  | TSlice _ => true
  | _ => false
  end.

(** The values a Go program can hold: integers within their width, float
    bit patterns within theirs, pointers to values of their element
    type. *)
Fixpoint wellFormed (v : any) : Prop :=
  match v with
  | VInt k z => inRange k z
  | VFloat32 b => 0 <= b < 2 ^ 32
  | VFloat64 b => 0 <= b < 2 ^ 64
  | VPtr t (Some x) => typeOf x = t /\ wellFormed x
  | VOther t => opaqueType t = true
  | _ => True
  end.

(** The zero value of a type: what [var x T] holds. *)
Definition zeroValue (t : typ) : any :=
  match t with
  | TNil => VNil
  | TInt k => VInt k 0
  | TFloat32 => VFloat32 0
  | TFloat64 => VFloat64 0
  | TBool => VBool false
  | TString => VString ""
  | TSlice (TInt Uint8) => VBytes []
  | TSlice e => VOther (TSlice e)
  | TPtr e => VPtr e None
  | TTime => VTime 0
  | TStruct n => VOther (TStruct n)
  end.

(** ** Errors *)

Inductive NumErr : Type := ErrSyntax | ErrRange.

(** An argument handed to [fmt.Errorf]. *)
Inductive arg : Type :=
| AVal (v : any)
| AType (t : typ).

(** Go [error] values.  [NumError] is [*strconv.NumError]; [Errorf] keeps
    the format string of [fmt.Errorf] and its arguments; [Wrap] is an
    [fmt.Errorf] whose last argument is the error it reports; [External]
    is an error of a library routine outside this package; [Panic] is a
    run-time panic. *)
Inductive error : Type :=
| NumError (fn : string) (num : string) (err : NumErr)
| Errorf (format : string) (args : list arg)
| Wrap (format : string) (cause : error)
| External (msg : string)
| Panic (msg : string).

Inductive result (A : Type) : Type :=
| Ok (a : A)
| Err (e : error).

Arguments Ok {A} a.
Arguments Err {A} e.

Definition bind {A B : Type} (r : result A) (f : A -> result B) : result B :=
  match r with
  | Ok a => f a
  | Err e => Err e
  end.

Notation "x <- r ;; k" := (bind r (fun x => k))
  (at level 61, r at next level, right associativity).

(** The outcome of a routine that writes through a pointer: the error it
    returns, and what the pointee holds afterwards. *)
Definition outcome : Type := option error * any.

Definition store (v : any) : outcome := (None, v).
Definition failWith (e : error) (cur : any) : outcome := (Some e, cur).

(** ** Package strconv, base 10

    Go's standard library, written out after its source: the integer
    and boolean routines the package calls. *)

Module strconv.

Definition isDigit (c : ascii) : bool :=
  let n := Z.of_N (N_of_ascii c) in (48 <=? n) && (n <=? 57).

Definition digitVal (c : ascii) : Z := Z.of_N (N_of_ascii c) - 48.

Definition maxUint64 : Z := 2 ^ 64 - 1.

(** The digit loop of [ParseUint] at base 10: [n] is the accumulator,
    a [uint64]. *)
Fixpoint parseLoop (maxVal : Z) (n : Z) (s : string) : Z + NumErr :=
  match s with
  | EmptyString => inl n
  | String c rest =>
      if isDigit c then
        let d := digitVal c in
        let cutoff := maxUint64 / 10 + 1 in
        if cutoff <=? n then inr ErrRange
        else
          let n' := (n * 10) mod 2 ^ 64 in
          let n1 := (n' + d) mod 2 ^ 64 in
          if (n1 <? n') || (maxVal <? n1) then inr ErrRange
          else parseLoop maxVal n1 rest
      else inr ErrSyntax
  end.

(** [ParseUint(s, 10, bitSize)] as a value and a [NumErr]: Go returns
    both, and [ParseInt] reads the value next to a range error. *)
Definition parseUintRaw (s : string) (bits : Z) : Z * option NumErr :=
  match s with
  | EmptyString => (0, Some ErrSyntax)
  | _ =>
      let maxVal := 2 ^ bits - 1 in
      match parseLoop maxVal 0 s with
      | inl n => (n, None)
      | inr ErrRange => (maxVal, Some ErrRange)
      | inr ErrSyntax => (0, Some ErrSyntax)
      end
  end.

Definition ParseUint (s : string) (bits : Z) : result Z :=
  match parseUintRaw s bits with
  | (n, None) => Ok n
  | (_, Some e) => Err (NumError "ParseUint" s e)
  end.

Definition ParseInt (s0 : string) (bits : Z) : result Z :=
  match s0 with
  | EmptyString => Err (NumError "ParseInt" s0 ErrSyntax)
  | String c rest =>
      let neg := Ascii.eqb c "-"%char in
      let s := if Ascii.eqb c "+"%char || neg then rest else s0 in
      match parseUintRaw s bits with
      | (_, Some ErrSyntax) => Err (NumError "ParseInt" s0 ErrSyntax)
      | (un, _) =>
          let cutoff := 2 ^ (bits - 1) in
          if negb neg && (cutoff <=? un) then
            Err (NumError "ParseInt" s0 ErrRange)
          else if neg && (cutoff <? un) then
            Err (NumError "ParseInt" s0 ErrRange)
          else Ok (if neg then - un else un)
      end
  end.

Definition digitChar (d : Z) : ascii := ascii_of_N (Z.to_N (48 + d)).

(** The digits of [u], most significant first, in front of [acc]. *)
Fixpoint digits (fuel : nat) (u : Z) (acc : string) : string :=
  match fuel with
  | O => acc
  | S fuel' =>
      let acc' := String (digitChar (u mod 10)) acc in
      if u / 10 =? 0 then acc' else digits fuel' (u / 10) acc'
  end.

(** A [uint64] has at most twenty decimal digits. *)
Definition FormatUint (u : Z) : string := digits 20 u "".

Definition FormatInt (i : Z) : string :=
  if i <? 0 then String "-"%char (FormatUint (- i)) else FormatUint i.

Definition ParseBool (str : string) : result bool :=
  if existsb (String.eqb str) ["1"; "t"; "T"; "TRUE"; "true"; "True"]
  then Ok true
  else if existsb (String.eqb str) ["0"; "f"; "F"; "FALSE"; "false"; "False"]
  then Ok false
  else Err (NumError "ParseBool" str ErrSyntax).

Definition FormatBool (b : bool) : string :=
  if b then "true" else "false".

End strconv.

(** ** Bytes and package encoding/binary, big-endian *)

(** Go's [byte(z)]: the low eight bits. *)
Definition byteOf (z : Z) : byte :=
  byte_of_ascii (ascii_of_N (Z.to_N (z mod 256))).

(** Go's [uint64(b)] for a byte [b]. *)
Definition Zb (b : byte) : Z := Z.of_N (Byte.to_N b).

(** [b[i]] where the caller has checked the length. *)
Definition at_ (b : list byte) (i : nat) : Z := Zb (nth i b x00).

Module BigEndian.

Definition PutUint16 (v : Z) : list byte :=
  [byteOf (Z.shiftr v 8); byteOf v].

Definition PutUint32 (v : Z) : list byte :=
  [byteOf (Z.shiftr v 24); byteOf (Z.shiftr v 16);
   byteOf (Z.shiftr v 8); byteOf v].

Definition PutUint64 (v : Z) : list byte :=
  [byteOf (Z.shiftr v 56); byteOf (Z.shiftr v 48);
   byteOf (Z.shiftr v 40); byteOf (Z.shiftr v 32);
   byteOf (Z.shiftr v 24); byteOf (Z.shiftr v 16);
   byteOf (Z.shiftr v 8); byteOf v].

Definition Uint16 (b : list byte) : Z :=
  Z.lor (at_ b 1) (Z.shiftl (at_ b 0) 8).

Definition Uint32 (b : list byte) : Z :=
  Z.lor (Z.lor (Z.lor (at_ b 3) (Z.shiftl (at_ b 2) 8))
               (Z.shiftl (at_ b 1) 16))
        (Z.shiftl (at_ b 0) 24).

Definition Uint64 (b : list byte) : Z :=
  Z.lor (Z.lor (Z.lor (Z.lor (Z.lor (Z.lor (Z.lor
    (at_ b 7) (Z.shiftl (at_ b 6) 8)) (Z.shiftl (at_ b 5) 16))
    (Z.shiftl (at_ b 4) 24)) (Z.shiftl (at_ b 3) 32))
    (Z.shiftl (at_ b 2) 40)) (Z.shiftl (at_ b 1) 48))
    (Z.shiftl (at_ b 0) 56).

End BigEndian.

(** ** Floating point, on bit patterns *)

(** [float64(f)] for a [float32]: exact widening; a NaN comes out
    quiet. *)
Definition float64_of_float32 (b : Z) : Z :=
  let sign := Z.shiftl (Z.shiftr b 31) 63 in
  let e := Z.land (Z.shiftr b 23) 255 in
  let m := Z.land b (2 ^ 23 - 1) in
  if e =? 255 then
    sign + Z.shiftl 2047 52
    + (if m =? 0 then 0 else Z.lor (Z.shiftl m 29) (2 ^ 51))
  else if e =? 0 then
    if m =? 0 then sign
    else
      let k := Z.log2 m in
      sign + Z.shiftl (k - 149 + 1023) 52 + Z.shiftl (m - 2 ^ k) (52 - k)
  else sign + Z.shiftl (e - 127 + 1023) 52 + Z.shiftl m 29.

(** The integer part of a finite [float64], fraction discarded. *)
Definition truncFloat64 (b : Z) : Z :=
  let e := Z.land (Z.shiftr b 52) 2047 in
  let m := Z.land b (2 ^ 52 - 1) in
  let mag := if e =? 0 then 0 else Z.shiftl (2 ^ 52 + m) (e - 1075) in
  if Z.testbit b 63 then - mag else mag.

(** Go's [int64(f)].  The language leaves the result open when the value
    does not fit; this is what amd64 yields then. *)
Definition int64_of_float64 (b : Z) : Z :=
  let e := Z.land (Z.shiftr b 52) 2047 in
  if e =? 2047 then minOf Int64
  else if inRangeb Int64 (truncFloat64 b) then truncFloat64 b
  else minOf Int64.

(** [f != 0]: neither of the two zeros. *)
Definition floatNonZero (b : Z) : bool := negb (Z.land b (2 ^ 63 - 1) =? 0).

Definition isNaN64 (b : Z) : bool :=
  (Z.land (Z.shiftr b 52) 2047 =? 2047) && negb (Z.land b (2 ^ 52 - 1) =? 0).

(** [|f| > math.MaxFloat32] for a [float64] that is not a NaN. *)
Definition exceedsFloat32 (b : Z) : bool :=
  negb (isNaN64 b) && (0x47EFFFFFE0000000 <? Z.land b (2 ^ 63 - 1)).

(** ** Library routines taken as given

    Decimal floating-point text, JSON, rounding conversions to floating
    point and timestamp parsing come from Go's standard library; the
    package is specified for any implementation of them. *)
Class Extern : Type := {
  (** [strconv.ParseFloat(s, bitSize)], the result as [float64] bits *)
  ParseFloat : string -> Z -> result Z;
  (** [strconv.FormatFloat(f, fmt, prec, bitSize)] *)
  FormatFloat : Z -> ascii -> Z -> Z -> string;
  (** [float32(f)] for a [float64] *)
  float32_of_float64 : Z -> Z;
  (** [float64(i)] for an integer *)
  float64_of_int : Z -> Z;
  (** [json.Marshal(v)] *)
  json_Marshal : any -> result (list byte);
  (** [json.Unmarshal(data, p)], given what [*p] holds *)
  json_Unmarshal : list byte -> any -> outcome;
  (** [time.Parse(time.RFC3339Nano, s)] *)
  time_Parse : string -> result Z;
  (** [fmt.Sprintf("%v", v)] *)
  Sprint : any -> string
}.

Definition typeName (k : IntKind) : string :=
  match k with
  | Int => "int" | Int8 => "int8" | Int16 => "int16"
  | Int32 => "int32" | Int64 => "int64"
  | Uint => "uint" | Uint8 => "uint8" | Uint16 => "uint16"
  | Uint32 => "uint32" | Uint64 => "uint64"
  end.

(** ** The primitive codec *)

Section Codec.

Context {ext : Extern}.

Definition toInt64 (value : any) : Z * bool :=
  match value with
  | VInt _ v => (wrap Int64 v, true)
  | _ => (0, false)
  end.

Definition toFloat64 (value : any) : Z * bool :=
  match value with
  | VFloat32 v => (float64_of_float32 v, true)
  | VFloat64 v => (v, true)
  | _ => (0, false)
  end.

Definition anyToString (value : any) : result string :=
  match value with
  | VInt k v =>
      if signed k then Ok (strconv.FormatInt (wrap Int64 v))
      else Ok (strconv.FormatUint (wrap Uint64 v))
  | VFloat32 v => Ok (FormatFloat (float64_of_float32 v) "f" (-1) 32)
  | VFloat64 v => Ok (FormatFloat v "f" (-1) 64)
  | VBool v => Ok (strconv.FormatBool v)
  | VString v => Ok v
  | VBytes v => Ok (string_of_list_byte v)
  | _ =>
      marshal <- json_Marshal value ;;
      Ok (string_of_list_byte marshal)
  end.

(** [parseStringValue(str, value)]; [value] is what the target holds
    on entry, and its type selects the case. *)
Definition parseStringValue (str : string) (value : any) : outcome :=
  match value with
  | VInt k _ =>
      match (if signed k then strconv.ParseInt str (bitSize k)
             else strconv.ParseUint str (bitSize k)) with
      | Err err => failWith err value
      | Ok parsed => store (VInt k (wrap k parsed))
      end
  | VFloat32 _ =>
      match ParseFloat str 32 with
      | Err err => failWith err value
      | Ok parsed => store (VFloat32 (float32_of_float64 parsed))
      end
  | VFloat64 _ =>
      match ParseFloat str 64 with
      | Err err => failWith err value
      | Ok parsed => store (VFloat64 parsed)
      end
  | VBool _ =>
      match strconv.ParseBool str with
      | Err err => failWith err value
      | Ok parsed => store (VBool parsed)
      end
  | VString _ => store (VString str)
  | VBytes _ => store (VBytes (list_byte_of_string str))
  | _ => json_Unmarshal (list_byte_of_string str) value
  end.

Definition anyToBinary (value : any) : result (list byte) :=
  match value with
  | VInt Int8 v => Ok [byteOf v]
  | VInt Int16 v => Ok (BigEndian.PutUint16 (wrap Uint16 v))
  | VInt Int32 v => Ok (BigEndian.PutUint32 (wrap Uint32 v))
  | VInt Int64 v => Ok (BigEndian.PutUint64 (wrap Uint64 v))
  | VInt Int v => Ok (BigEndian.PutUint64 (wrap Uint64 v))
  | VInt Uint8 v => Ok [byteOf v]
  | VInt Uint16 v => Ok (BigEndian.PutUint16 v)
  | VInt Uint32 v => Ok (BigEndian.PutUint32 v)
  | VInt Uint64 v => Ok (BigEndian.PutUint64 v)
  | VInt Uint v => Ok (BigEndian.PutUint64 (wrap Uint64 v))
  | VFloat32 v => Ok (BigEndian.PutUint32 v)
  | VFloat64 v => Ok (BigEndian.PutUint64 v)
  | VBool v => if v then Ok [x01] else Ok [x00]
  | VString v => Ok (list_byte_of_string v)
  | VBytes v => Ok v
  | _ => json_Marshal value
  end.

Definition emptyData : error := Errorf "empty binary data" [].

Definition insufficient (name : string) : error :=
  Errorf ("insufficient data for " ++ name) [].

(** The number of bytes [parseBinaryValue] asks of each integer kind. *)
Definition width (k : IntKind) : Z := bitSize k / 8.

Definition len (data : list byte) : Z := Z.of_nat (List.length data).

Definition parseBinaryValue (data : list byte) (value : any) : outcome :=
  if len data =? 0 then failWith emptyData value
  else
    match value with
    | VInt Int8 _ =>
        if len data <? 1 then failWith (insufficient "int8") value
        else store (VInt Int8 (wrap Int8 (at_ data 0)))
    | VInt Int16 _ =>
        if len data <? 2 then failWith (insufficient "int16") value
        else store (VInt Int16 (wrap Int16 (BigEndian.Uint16 data)))
    | VInt Int32 _ =>
        if len data <? 4 then failWith (insufficient "int32") value
        else store (VInt Int32 (wrap Int32 (BigEndian.Uint32 data)))
    | VInt Int64 _ =>
        if len data <? 8 then failWith (insufficient "int64") value
        else store (VInt Int64 (wrap Int64 (BigEndian.Uint64 data)))
    | VInt Int _ =>
        if len data <? 8 then failWith (insufficient "int") value
        else store (VInt Int (wrap Int (BigEndian.Uint64 data)))
    | VInt Uint8 _ =>
        if len data <? 1 then failWith (insufficient "uint8") value
        else store (VInt Uint8 (at_ data 0))
    | VInt Uint16 _ =>
        if len data <? 2 then failWith (insufficient "uint16") value
        else store (VInt Uint16 (BigEndian.Uint16 data))
    | VInt Uint32 _ =>
        if len data <? 4 then failWith (insufficient "uint32") value
        else store (VInt Uint32 (BigEndian.Uint32 data))
    | VInt Uint64 _ =>
        if len data <? 8 then failWith (insufficient "uint64") value
        else store (VInt Uint64 (BigEndian.Uint64 data))
    | VInt Uint _ =>
        if len data <? 8 then failWith (insufficient "uint") value
        else store (VInt Uint (wrap Uint (BigEndian.Uint64 data)))
    | VFloat32 _ =>
        if len data <? 4 then failWith (insufficient "float32") value
        else store (VFloat32 (BigEndian.Uint32 data))
    | VFloat64 _ =>
        if len data <? 8 then failWith (insufficient "float64") value
        else store (VFloat64 (BigEndian.Uint64 data))
    | VBool _ =>
        if len data <? 1 then failWith (insufficient "bool") value
        else store (VBool (negb (at_ data 0 =? 0)))
    | VString _ => store (VString (string_of_list_byte data))
    | VBytes _ => store (VBytes data)
    | _ => json_Unmarshal data value
    end.

(** [convertToTargetType] as written over the type switch, next to the
    format codecs. *)
Definition convertToTargetType (value target : any) : outcome :=
  let cannot (name : string) :=
    failWith (Errorf ("cannot convert %T to " ++ name) [AVal value]) target in
  match target with
  | VString _ =>
      match value with
      | VString str => store (VString str)
      | _ =>
          match anyToString value with
          | Err err => failWith err target
          | Ok str => store (VString str)
          end
      end
  | VInt k _ =>
      let (v, ok) := toInt64 value in
      if signed k then
        if ok then store (VInt k (wrap k v)) else cannot (typeName k)
      else
        let fits :=
          match k with
          | Uint8 => (0 <=? v) && (v <=? 255)
          | Uint16 => (0 <=? v) && (v <=? 65535)
          | Uint32 => (0 <=? v) && (v <=? 4294967295)
          | _ => 0 <=? v
          end in
        if ok && fits then store (VInt k (wrap k v)) else cannot (typeName k)
  | VFloat32 _ =>
      let (v, ok) := toFloat64 value in
      if ok then store (VFloat32 (float32_of_float64 v)) else cannot "float32"
  | VFloat64 _ =>
      let (v, ok) := toFloat64 value in
      if ok then store (VFloat64 v) else cannot "float64"
  | VBool _ =>
      match value with
      | VBool v => store (VBool v)
      | _ => cannot "bool"
      end
  | VBytes _ =>
      match value with
      | VString v => store (VBytes (list_byte_of_string v))
      | VBytes v => store (VBytes v)
      | _ => cannot "[]byte"
      end
  | _ =>
      match json_Marshal value with
      | Err err =>
          failWith (Wrap "failed to marshal value for conversion: %w" err)
                   target
      | Ok jsonData =>
          match json_Unmarshal jsonData target with
          | (Some err, t) =>
              (Some (Wrap "failed to unmarshal value: %w" err), t)
          | (None, t) => (None, t)
          end
      end
  end.

End Codec.

(** ** GenericScanner *)

Section Scanner.

Context {ext : Extern}.

(** [v := reflect.ValueOf(src)], stepping through one pointer; [None]
    when that pointer is nil and the routine returns at once. *)
Definition indirect (src : any) : option any :=
  match src with
  | VPtr _ None => None
  | VPtr _ (Some v) => Some v
  | _ => Some src
  end.

(** The scan routines are entered from [Scan], after it has ruled out
    a nil interface. *)
Definition scanString (target src : any) : outcome :=
  match indirect src with
  | None => (None, target)
  | Some v =>
      match v with
      | VString str => store (VString str)
      | VBytes b => store (VString (string_of_list_byte b))
      | VOther (TSlice e) =>
          failWith (Errorf "cannot convert slice of %v to string" [AType e])
                   target
      | _ =>
          failWith (Errorf "cannot convert %v to string" [AType (typeOf v)])
                   target
      end
  end.

(** The second half of [scanInt]: range check against the target kind,
    then [SetInt] or [SetUint]. *)
Definition setInt (target : any) (i : Z) : outcome :=
  let overflows (name : string) :=
    failWith (Errorf ("value %d overflows " ++ name) [AVal (VInt Int64 i)])
             target in
  match target with
  | VInt Int _ =>
      if (maxOf Int <? i) || (i <? minOf Int) then overflows "int"
      else store (VInt Int i)
  | VInt Int8 _ =>
      if (maxOf Int8 <? i) || (i <? minOf Int8) then overflows "int8"
      else store (VInt Int8 i)
  | VInt Int16 _ =>
      if (maxOf Int16 <? i) || (i <? minOf Int16) then overflows "int16"
      else store (VInt Int16 i)
  | VInt Int32 _ =>
      if (maxOf Int32 <? i) || (i <? minOf Int32) then overflows "int32"
      else store (VInt Int32 i)
  | VInt Int64 _ => store (VInt Int64 i)
  | VInt Uint _ =>
      if (i <? 0) || (maxOf Uint <? wrap Uint64 i) then
        failWith (Errorf "value %d cannot be converted to uint"
                         [AVal (VInt Int64 i)]) target
      else store (VInt Uint (wrap Uint64 i))
  | VInt Uint8 _ =>
      if (i <? 0) || (maxOf Uint8 <? i) then overflows "uint8"
      else store (VInt Uint8 (wrap Uint64 i))
  | VInt Uint16 _ =>
      if (i <? 0) || (maxOf Uint16 <? i) then overflows "uint16"
      else store (VInt Uint16 (wrap Uint64 i))
  | VInt Uint32 _ =>
      if (i <? 0) || (maxOf Uint32 <? i) then overflows "uint32"
      else store (VInt Uint32 (wrap Uint64 i))
  | VInt Uint64 _ =>
      if i <? 0 then
        failWith (Errorf "negative value %d cannot be converted to uint64"
                         [AVal (VInt Int64 i)]) target
      else store (VInt Uint64 (wrap Uint64 i))
  | _ =>
      failWith (Errorf "unsupported integer type: %v" [AType (typeOf target)])
               target
  end.

Definition scanInt (target src : any) : outcome :=
  match indirect src with
  | None => (None, target)
  | Some v =>
      match v with
      | VInt k z =>
          if signed k then setInt target z
          else
            let u := z in
            if maxOf Int64 <? u then
              failWith (Errorf "unsigned integer value %d overflows int64"
                               [AVal (VInt Uint64 u)]) target
            else setInt target (wrap Int64 u)
      | VFloat32 f => setInt target (int64_of_float64 (float64_of_float32 f))
      | VFloat64 f => setInt target (int64_of_float64 f)
      | VBool b => setInt target (if b then 1 else 0)
      | VString str =>
          match strconv.ParseInt str 64 with
          | Err err =>
              failWith (Wrap "failed to parse integer from string: %v" err)
                       target
          | Ok i => setInt target i
          end
      | VBytes b =>
          match strconv.ParseInt (string_of_list_byte b) 64 with
          | Err err =>
              failWith (Wrap "failed to parse integer from bytes: %v" err)
                       target
          | Ok i => setInt target i
          end
      | VOther (TSlice e) =>
          failWith (Errorf "cannot convert slice of %v to integer" [AType e])
                   target
      | _ =>
          failWith (Errorf "cannot convert %v to integer" [AType (typeOf v)])
                   target
      end
  end.

Definition setFloat (target : any) (f : Z) : outcome :=
  match target with
  | VFloat32 _ =>
      if exceedsFloat32 f then
        failWith (Errorf "value %f overflows float32" [AVal (VFloat64 f)])
                 target
      else store (VFloat32 (float32_of_float64 f))
  | VFloat64 _ => store (VFloat64 f)
  | _ =>
      failWith (Errorf "unsupported float type: %v" [AType (typeOf target)])
               target
  end.

Definition scanFloat (target src : any) : outcome :=
  match indirect src with
  | None => (None, target)
  | Some v =>
      match v with
      | VFloat32 f => setFloat target (float64_of_float32 f)
      | VFloat64 f => setFloat target f
      | VInt _ z => setFloat target (float64_of_int z)
      | VString str =>
          match ParseFloat str 64 with
          | Err err =>
              failWith (Wrap "failed to parse float from string: %v" err)
                       target
          | Ok f => setFloat target f
          end
      | VBytes b =>
          match ParseFloat (string_of_list_byte b) 64 with
          | Err err =>
              failWith (Wrap "failed to parse float from bytes: %v" err)
                       target
          | Ok f => setFloat target f
          end
      | VOther (TSlice e) =>
          failWith (Errorf "cannot convert slice of %v to float" [AType e])
                   target
      | _ =>
          failWith (Errorf "cannot convert %v to float" [AType (typeOf v)])
                   target
      end
  end.

Definition scanBool (target src : any) : outcome :=
  match indirect src with
  | None => (None, target)
  | Some v =>
      match v with
      | VBool b => store (VBool b)
      | VInt _ z => store (VBool (negb (z =? 0)))
      | VFloat32 f => store (VBool (floatNonZero (float64_of_float32 f)))
      | VFloat64 f => store (VBool (floatNonZero f))
      | VString str =>
          match strconv.ParseBool str with
          | Err err =>
              failWith (Wrap "failed to parse bool from string: %v" err)
                       target
          | Ok b => store (VBool b)
          end
      | VBytes b =>
          match strconv.ParseBool (string_of_list_byte b) with
          | Err err =>
              failWith (Wrap "failed to parse bool from bytes: %v" err)
                       target
          | Ok b => store (VBool b)
          end
      | VOther (TSlice e) =>
          failWith (Errorf "cannot convert slice of %v to bool" [AType e])
                   target
      | _ =>
          failWith (Errorf "cannot convert %v to bool" [AType (typeOf v)])
                   target
      end
  end.

Definition scanTime (target src : any) : outcome :=
  match indirect src with
  | None => (None, target)
  | Some v =>
      match v with
      | VTime t => store (VTime t)
      | VString str =>
          match time_Parse str with
          | Err err =>
              failWith (Wrap "failed to parse time from string: %v" err)
                       target
          | Ok t => store (VTime t)
          end
      | VBytes b =>
          match time_Parse (string_of_list_byte b) with
          | Err err =>
              failWith (Wrap "failed to parse time from bytes: %v" err)
                       target
          | Ok t => store (VTime t)
          end
      | _ =>
          failWith (Errorf "cannot convert %v to time.Time" [AType (typeOf v)])
                   target
      end
  end.

(** [NewScanner(&target).Scan(src)].  With [T] an interface type the
    target's [reflect.TypeOf] is nil and asking its kind panics. *)
Definition Scan (target src : any) : outcome :=
  match src with
  | VNil => (None, target)
  | _ =>
      match indirect src with
      | None => (None, target)
      | Some _ =>
          match typeOf target with
          | TString => scanString target src
          | TInt _ => scanInt target src
          | TFloat32 | TFloat64 => scanFloat target src
          | TBool => scanBool target src
          | TTime => scanTime target src
          | TNil =>
              failWith
                (Panic "invalid memory address or nil pointer dereference")
                target
          | t => failWith (Errorf "unsupported target type: %v" [AType t])
                          target
          end
      end
  end.

End Scanner.

(** ** The reflection-based utilities and [convertToTargetType] *)

Module Reflect.
Section Reflect.

Context {ext : Extern}.

Definition anyToString (value : any) : result string :=
  match value with
  | VNil => Ok "null"
  | VPtr _ None => Ok "null"
  | _ =>
      match indirect value with
      | Some (VInt k v) =>
          if signed k then Ok (strconv.FormatInt v)
          else Ok (strconv.FormatUint v)
      | Some (VFloat32 v) =>
          Ok (FormatFloat (float64_of_float32 v) "g" (-1) 32)
      | Some (VFloat64 v) => Ok (FormatFloat v "f" (-1) 64)
      | Some (VBool v) => Ok (strconv.FormatBool v)
      | Some (VString v) => Ok v
      | Some (VBytes v) => Ok (string_of_list_byte v)
      | _ =>
          marshal <- json_Marshal value ;;
          Ok (string_of_list_byte marshal)
      end
  end.

(** [reflect.Value.OverflowFloat] at a [float32]: a finite magnitude
    above [math.MaxFloat32]. *)
Definition OverflowFloat32 (f : Z) : bool :=
  let mag := Z.land f (2 ^ 63 - 1) in
  (0x47EFFFFFE0000000 <? mag) && (mag <? 0x7FF0000000000000).

(** [convertToTargetType(value, target)]; [target] is what the pointee
    holds on entry.  In the integer and float cases [v] is the target
    itself, so [v.Int()], [v.Uint()] and [v.Float()] read the target. *)
Definition convertToTargetType (value target : any) : outcome :=
  match value with
  | VNil => failWith (Errorf "cannot convert nil value" []) target
  | _ =>
      match target with
      | VString _ =>
          match value with
          | VString str => store (VString str)
          | _ =>
              match anyToString value with
              | Err err => failWith err target
              | Ok str => store (VString str)
              end
          end
      | VInt k cur =>
          let val := cur in
          if negb (inRangeb k val) then
            failWith (Errorf "value %v overflows %s"
                             [AVal (VInt (if signed k then Int64 else Uint64) val);
                              AType (TInt k)]) target
          else store (VInt k (wrap k val))
      | VFloat32 cur =>
          let val := float64_of_float32 cur in
          if OverflowFloat32 val then
            failWith (Errorf "value %v overflows %s"
                             [AVal (VFloat64 val); AType TFloat32]) target
          else store (VFloat32 (float32_of_float64 val))
      | VFloat64 cur => store (VFloat64 cur)
      | VBool _ =>
          match value with
          | VBool b => store (VBool b)
          | VString str =>
              match strconv.ParseBool str with
              | Err err =>
                  failWith (Wrap "cannot convert string %q to bool: %v" err)
                           target
              | Ok b => store (VBool b)
              end
          | _ =>
              failWith (Errorf "cannot convert %T to bool" [AVal value])
                       target
          end
      | VBytes _ =>
          match value with
          | VBytes b => store (VBytes b)
          | VString str => store (VBytes (list_byte_of_string str))
          | _ =>
              failWith (Errorf "cannot convert %T to []byte" [AVal value])
                       target
          end
      | VOther (TSlice e) =>
          failWith (Errorf "cannot convert %T to %s"
                           [AVal value; AType (TSlice e)]) target
      | _ =>
          failWith (Errorf "unsupported type %s" [AType (typeOf target)])
                   target
      end
  end.

End Reflect.
End Reflect.

(** ** The enum contract and the format codecs *)

Inductive Format : Type :=
| FormatName
| FormatValue.

(** The interface [Enum[R, Self]], with [Self] the implementing type as
    in all generated code, and [R] given by [RawType].  A lookup returns
    the instance and whether it was found. *)
Class Enum (E : Type) : Type := {
  RawType : typ;
  Val : E -> any;
  IsValid : E -> bool;
  FromName : E -> string -> E * bool;
  FromValue : E -> any -> E * bool;
  SerdeFormat : E -> Format;
  Name : E -> string
}.

(** The interface [YAMLNode]: [Decode] is handed a pointer, here what
    the pointee holds; a pointee [VNil] is an [interface{}] variable. *)
Record YAMLNode : Type := {
  Decode : any -> outcome
}.

Definition isFormatName (f : Format) : bool :=
  match f with
  | FormatName => true
  | FormatValue => false
  end.

Section Serde.

Context {ext : Extern} {E : Type} {enum : Enum E}.

Definition unknownConstants (src : any) : error :=
  Errorf "unknown constants %v" [AVal src].

Definition findNameOrValue (e : E) (value : any) (isName : bool) (src : any)
  : result E :=
  if isName then
    match value with
    | VString name =>
        let (ret, ok) := FromName e name in
        if ok then Ok ret else Err (unknownConstants src)
    | _ => Err (Panic "interface conversion: interface {} is not string")
    end
  else
    let (ret, ok) := FromValue e value in
    if ok then Ok ret else Err (unknownConstants src).

Definition MarshalJSON (e : E) (b : any) : result (list byte) :=
  if isFormatName (SerdeFormat e) then json_Marshal (VString (Name e))
  else
    bs <- anyToString b ;;
    Ok (list_byte_of_string bs).

Definition UnmarshalJSON (e : E) (bs : list byte) : result E :=
  if isFormatName (SerdeFormat e) then
    match json_Unmarshal bs (VString "") with
    | (Some err, _) => Err err
    | (None, name) =>
        findNameOrValue e name true (VString (string_of_list_byte bs))
    end
  else
    match json_Unmarshal bs (zeroValue RawType) with
    | (Some err, _) => Err err
    | (None, rawValue) =>
        findNameOrValue e rawValue false (VString (string_of_list_byte bs))
    end.

Definition SQLScan (e : E) (src : any) : result E :=
  if isFormatName (SerdeFormat e) then
    match Scan (VString "") src with
    | (Some err, _) => Err err
    | (None, name) => findNameOrValue e name true src
    end
  else
    match Scan (zeroValue RawType) src with
    | (Some err, _) => Err err
    | (None, rawValue) => findNameOrValue e rawValue false src
    end.

Definition MarshalText (e : E) (b : any) : result (list byte) :=
  if isFormatName (SerdeFormat e) then Ok (list_byte_of_string (Name e))
  else
    bs <- anyToString b ;;
    Ok (list_byte_of_string bs).

Definition UnmarshalText (e : E) (bs : list byte) : result E :=
  let str := string_of_list_byte bs in
  if isFormatName (SerdeFormat e) then
    findNameOrValue e (VString str) true (VString str)
  else
    match parseStringValue str (zeroValue RawType) with
    | (Some err, _) => Err err
    | (None, rawValue) =>
        findNameOrValue e rawValue false (VString (string_of_list_byte bs))
    end.

Definition MarshalBinary (e : E) (b : any) : result (list byte) :=
  if isFormatName (SerdeFormat e) then Ok (list_byte_of_string (Name e))
  else anyToBinary b.

Definition UnmarshalBinary (e : E) (bs : list byte) : result E :=
  if isFormatName (SerdeFormat e) then
    let name := string_of_list_byte bs in
    findNameOrValue e (VString name) true (VString (string_of_list_byte bs))
  else
    match parseBinaryValue bs (zeroValue RawType) with
    | (Some err, _) => Err err
    | (None, rawValue) =>
        findNameOrValue e rawValue false (VString (string_of_list_byte bs))
    end.

Definition UnmarshalYAML (e : E) (node : YAMLNode) : result E :=
  if isFormatName (SerdeFormat e) then
    match Decode node (VString "") with
    | (Some err, _) =>
        Err (Wrap "failed to decode YAML node as string: %w" err)
    | (None, name) => findNameOrValue e name true name
    end
  else
    match Decode node (zeroValue RawType) with
    | (None, rawValue) => findNameOrValue e rawValue false rawValue
    | (Some err, rawValue) =>
        match Decode node VNil with
        | (Some err2, _) => Err (Wrap "failed to decode YAML node: %w" err)
        | (None, value) =>
            match Reflect.convertToTargetType value rawValue with
            | (Some err, _) =>
                Err (Wrap "failed to convert YAML value to target type: %w"
                          err)
            | (None, rawValue) => findNameOrValue e rawValue false rawValue
            end
        end
    end.

End Serde.

(** ** A node and an enum type to run the codecs on *)

Section Mock.

Context {ext : Extern}.

(** [MockYAMLNode.Decode], the node of the package's tests, holding
    [value]. *)
Definition MockDecode (value : any) (target : any) : outcome :=
  match target with
  | VString _ =>
      match value with
      | VString str => store (VString str)
      | _ => store (VString (Sprint value))
      end
  | VInt Int _ =>
      match value with
      | VInt Int i => store (VInt Int i)
      | VInt Int64 i64 => store (VInt Int (wrap Int i64))
      | _ => failWith (Errorf "cannot convert %T to int" [AVal value]) target
      end
  | VInt Int32 _ =>
      match value with
      | VInt Int32 i => store (VInt Int32 i)
      | VInt Int i => store (VInt Int32 (wrap Int32 i))
      | _ => failWith (Errorf "cannot convert %T to int32" [AVal value]) target
      end
  | VFloat32 _ =>
      match value with
      | VFloat32 f => store (VFloat32 f)
      | VFloat64 f64 => store (VFloat32 (float32_of_float64 f64))
      | _ =>
          failWith (Errorf "cannot convert %T to float32" [AVal value]) target
      end
  | VBool _ =>
      match value with
      | VBool b => store (VBool b)
      | _ => failWith (Errorf "cannot convert %T to bool" [AVal value]) target
      end
  | VNil => store value
  | _ =>
      failWith (Errorf "unsupported decode type: %T"
                       [AVal (VPtr (typeOf target) (Some target))]) target
  end.

Definition MockYAMLNode (value : any) : YAMLNode :=
  {| Decode := MockDecode value |}.

End Mock.

(** The code the generator emits for an integer enum type: a wrapper
    around the raw value, the table of names, and the methods of the
    contract over them. *)
Section Generated.

Context {ext : Extern}.

Variable kind : IntKind.
Variable format : Format.
Variable lower : string.
Variable namesMap : list (Z * string).

Record Wrapper : Type := { raw : Z }.

Definition genVal (p : Wrapper) : any := VInt kind (raw p).

Definition genName (p : Wrapper) : string :=
  match find (fun entry => fst entry =? raw p) namesMap with
  | Some entry => snd entry
  | None => lower ++ "(" ++ Sprint (VInt kind (raw p)) ++ ")"
  end.

Definition genFromName (_ : Wrapper) (name : string) : Wrapper * bool :=
  match find (fun entry => String.eqb (snd entry) name) namesMap with
  | Some entry => ({| raw := fst entry |}, true)
  | None => ({| raw := 0 |}, false)
  end.

Definition genFromValue (_ : Wrapper) (value : any) : Wrapper * bool :=
  match value with
  | VInt _ z =>
      match find (fun entry => fst entry =? z) namesMap with
      | Some entry => ({| raw := fst entry |}, true)
      | None => ({| raw := 0 |}, false)
      end
  | _ => ({| raw := 0 |}, false)
  end.

Definition genIsValid (p : Wrapper) : bool :=
  existsb (fun entry => fst entry =? raw p) namesMap.

Definition generated : Enum Wrapper :=
  {| RawType := TInt kind;
     Val := genVal;
     IsValid := genIsValid;
     FromName := genFromName;
     FromValue := genFromValue;
     SerdeFormat := fun _ => format;
     Name := genName |}.

End Generated.

(** An environment without the library routines: those that can fail
    do, the others return a fixed value.  The runs below never reach
    them. *)
Definition hostless : Extern :=
  {| ParseFloat := fun _ _ => Err (External "strconv.ParseFloat");
     FormatFloat := fun _ _ _ _ => "";
     float32_of_float64 := fun f => f;
     float64_of_int := fun i => i;
     json_Marshal := fun _ => Err (External "json.Marshal");
     json_Unmarshal := fun _ v => (Some (External "json.Unmarshal"), v);
     time_Parse := fun _ => Err (External "time.Parse");
     Sprint := fun _ => "" |}.

(** A host whose [strconv] knows the floats 12.5 and -0.75, as Go
    formats, parses and narrows them. *)
Definition sampleHost : Extern :=
  {| ParseFloat := fun s _ =>
       if String.eqb s "12.5" then Ok 0x4029000000000000
       else if String.eqb s "-0.75" then Ok 0xBFE8000000000000
       else Err (NumError "ParseFloat" s ErrSyntax);
     FormatFloat := fun f _ _ _ =>
       if f =? 0x4029000000000000 then "12.5"
       else if f =? 0xBFE8000000000000 then "-0.75"
       else "";
     float32_of_float64 := fun f =>
       if f =? 0x4029000000000000 then 0x41480000
       else if f =? 0xBFE8000000000000 then 0xBF400000
       else 0;
     float64_of_int := fun i => i;
     json_Marshal := fun _ => Err (External "json.Marshal");
     json_Unmarshal := fun _ v => (Some (External "json.Unmarshal"), v);
     time_Parse := fun _ => Err (External "time.Parse");
     Sprint := fun _ => "" |}.

(** [bytesStatus] of the examples: [Active = 1], [Inactive = 2]. *)
Definition bytesStatus (k : IntKind) (f : Format) : Enum Wrapper :=
  @generated hostless k f "bytesstatus" [(1, "Active"); (2, "Inactive")].

Definition BytesActive : Wrapper := {| raw := 1 |}.
Definition BytesInactive : Wrapper := {| raw := 2 |}.

(** ** The remaining codecs of the package *)

Section Driver.

Context {ext : Extern} {E : Type} {enum : Enum E}.

(** [SQLValue], over the type switch. *)
Definition SQLValue (e : E) : result any :=
  if isFormatName (SerdeFormat e) then Ok (VString (Name e))
  else
    let val := Val e in
    let (i, isInt) := toInt64 val in
    if isInt then Ok (VInt Int64 i)
    else
      let (f, isFloat) := toFloat64 val in
      if isFloat then Ok (VFloat64 f)
      else
        match val with
        | VBytes v => Ok (VBytes v)
        | VBool v => Ok (VBool v)
        | VString v => Ok (VString v)
        | _ =>
            match json_Marshal val with
            | Err err => Err err
            | Ok marshal => Ok (VString (string_of_list_byte marshal))
            end
        end.

End Driver.

(** The encoders written over [reflect]. *)
Module ReflectCodec.
Section ReflectCodec.

Context {ext : Extern}.

Section Encoders.

Context {E : Type} {enum : Enum E}.

(** The switch on [v.Kind()] that [SQLValue] and [MarshalYAML] share;
    [fallback] is the default case. *)
Definition byKind (val : any) (fallback : any -> result any) : result any :=
  match val with
  | VNil => Err (Errorf "nil value" [])
  | VPtr _ None => Err (Errorf "nil value" [])
  | _ =>
      match indirect val with
      | Some (VInt k v) => Ok (VInt Int64 (wrap Int64 v))
      | Some (VFloat32 v) => Ok (VFloat64 (float64_of_float32 v))
      | Some (VFloat64 v) => Ok (VFloat64 v)
      | Some (VBool v) => Ok (VBool v)
      | Some (VString v) => Ok (VString v)
      | Some (VBytes v) => Ok (VBytes v)
      | Some (VOther (TSlice _)) =>
          Err (Panic "reflect.Value.Bytes of non-byte slice")
      | _ => fallback val
      end
  end.

Definition SQLValue (e : E) : result any :=
  if isFormatName (SerdeFormat e) then Ok (VString (Name e))
  else
    byKind (Val e)
      (fun val =>
         match json_Marshal val with
         | Err err => Err err
         | Ok marshal => Ok (VString (string_of_list_byte marshal))
         end).

(** [MarshalText] as above, built with the [anyToString] written over
    [reflect]. *)
Definition MarshalText (e : E) (b : any) : result (list byte) :=
  if isFormatName (SerdeFormat e) then Ok (list_byte_of_string (Name e))
  else
    bs <- Reflect.anyToString b ;;
    Ok (list_byte_of_string bs).

Definition MarshalYAML (e : E) (b : any) : result any :=
  if isFormatName (SerdeFormat e) then Ok (VString (Name e))
  else
    byKind (Val e)
      (fun val =>
         match Reflect.anyToString val with
         | Err err => Err err
         | Ok str => Ok (VString str)
         end).

End Encoders.

End ReflectCodec.
End ReflectCodec.

(** ** Vocabulary of the specification *)

(** The number a string of decimal digits denotes, read from left to
    right onto [n]. *)
Fixpoint decVal (s : string) (n : Z) : Z :=
  match s with
  | EmptyString => n
  | String c rest => decVal rest (n * 10 + strconv.digitVal c)
  end.

Fixpoint allDigits (s : string) : bool :=
  match s with
  | EmptyString => true
  | String c rest => strconv.isDigit c && allDigits rest
  end.

(** One or more decimal digits. *)
Definition digitsValue (s : string) : option Z :=
  match s with
  | EmptyString => None
  | _ => if allDigits s then Some (decVal s 0) else None
  end.

(** A base-10 numeral: an optional sign, then one or more digits. *)
Definition numeralValue (s : string) : option Z :=
  match s with
  | EmptyString => None
  | String c rest =>
      if Ascii.eqb c "-"%char then option_map Z.opp (digitsValue rest)
      else if Ascii.eqb c "+"%char then digitsValue rest
      else digitsValue s
  end.

(** The primitive kinds of the specification. *)
Definition primitive (v : any) : bool :=
  match v with
  | VInt _ _ | VFloat32 _ | VFloat64 _ | VBool _ | VString _ | VBytes _ => true
  | _ => false
  end.

(** The float formatting precision per bit width: [strconv] formats a
    float with the fewest digits that identify it at its width, so
    that parsing the text at that width gives the float back.  For a
    float32 the text is that of the widened value, and the parsed
    float64 narrows to the float32.  Nothing is asked for the other
    kinds. *)
Definition strconvRoundTrips {ext : Extern} (v : any) : Prop :=
  match v with
  | VFloat64 f => ParseFloat (FormatFloat f "f" (-1) 64) 64 = Ok f
  | VFloat32 f =>
      exists g,
        ParseFloat (FormatFloat (float64_of_float32 f) "f" (-1) 32) 32
        = Ok g /\
        float32_of_float64 g = f
  | _ => True
  end.

(** A string or a byte sequence of length zero. *)
Definition isEmpty (v : any) : bool :=
  match v with
  | VString s => String.eqb s ""
  | VBytes b => match b with [] => true | _ => false end
  | _ => false
  end.

(** The fixed-width kinds: how many bits a value takes and how Go names
    the type. *)
Definition fixedWidth (t : typ) : option (Z * string) :=
  match t with
  | TInt k => Some (bitSize k, typeName k)
  | TFloat32 => Some (32, "float32")
  | TFloat64 => Some (64, "float64")
  | TBool => Some (8, "bool")
  | _ => None
  end.

(** The bits of a fixed-width value, as an unsigned number. *)
Definition bitsOf (v : any) : Z :=
  match v with
  | VInt k z => z mod 2 ^ bitSize k
  | VFloat32 b | VFloat64 b => b
  | VBool b => if b then 1 else 0
  | _ => 0
  end.

(** The number a byte sequence denotes, most significant byte first. *)
Definition bigEndianValue (bs : list byte) : Z :=
  fold_left (fun acc b => acc * 256 + Zb b) bs 0.

(** Resolving a raw value by lookup: the member the enum type finds for
    it, or the unknown-constant error about [src]. *)
Definition lookupByValue {E : Type} {enum : Enum E} (e : E) (raw src : any)
  : result E :=
  let (ret, ok) := FromValue e raw in
  if ok then Ok ret else Err (unknownConstants src).

(** The types a [driver.Value] may have. *)
Definition driverType (t : typ) : bool :=
  match t with
  | TInt Int64 | TFloat64 | TBool | TString => true
  | TSlice (TInt Uint8) => true
  | _ => false
  end.

(** The byte sequences the binary decoder accepts for a target: as many
    bytes as the width of a fixed-width target, at least. *)
Definition longEnough (data : list byte) (target : any) : Prop :=
  match fixedWidth (typeOf target) with
  | Some (bits, _) => bits / 8 <= len data
  | None => True
  end.

Definition isPointer (v : any) : bool :=
  match v with
  | VPtr _ _ => true
  | _ => false
  end.

(** A finite binary floating-point number: [(-1)^negative * significand
    * 2^exponent]. *)
Record binaryFloat : Type := {
  negative : bool;
  significand : Z;
  exponent : Z
}.

(** The number an IEEE-754 bit pattern with [mbits] fraction bits and
    [ebits] exponent bits denotes; [None] for an infinity or a NaN. *)
Definition floatValue (mbits ebits : Z) (b : Z) : option binaryFloat :=
  let frac := b mod 2 ^ mbits in
  let e := (b / 2 ^ mbits) mod 2 ^ ebits in
  let s := 2 ^ (mbits + ebits) <=? b in
  let bias := 2 ^ (ebits - 1) - 1 in
  if e =? 2 ^ ebits - 1 then None
  else if e =? 0 then
    Some {| negative := s; significand := frac; exponent := 1 - bias - mbits |}
  else
    Some {| negative := s; significand := 2 ^ mbits + frac;
            exponent := e - bias - mbits |}.

Definition float32Value : Z -> option binaryFloat := floatValue 23 8.
Definition float64Value : Z -> option binaryFloat := floatValue 52 11.

(** The integer part of a number: the fraction is dropped, which rounds
    toward zero. *)
Definition truncTowardZero (x : binaryFloat) : Z :=
  let n := if negative x then - significand x else significand x in
  Z.quot (n * 2 ^ Z.max (exponent x) 0) (2 ^ Z.max (- exponent x) 0).

(** An enum over uint64 whose one member is the largest uint64. *)
Definition wideStatus : Enum Wrapper :=
  @generated hostless Uint64 FormatValue "widestatus"
    [(18446744073709551615, "Max")].

Definition WideMax : Wrapper := {| raw := 18446744073709551615 |}.

(** * Properties *)

Example ParseInt_1000_int8 :
  strconv.ParseInt "1000" 8 = Err (NumError "ParseInt" "1000" ErrRange).
Proof. reflexivity. Qed.

Example ParseInt_neg128_int8 : strconv.ParseInt "-128" 8 = Ok (-128).
Proof. reflexivity. Qed.

Example FormatInt_min64 :
  strconv.FormatInt (- 2 ^ 63) = "-9223372036854775808".
Proof. reflexivity. Qed.

Example ParseUint_max64 :
  strconv.ParseUint "18446744073709551615" 64 = Ok (2 ^ 64 - 1).
Proof. vm_compute. reflexivity. Qed.

Example widen_12_5 : float64_of_float32 0x41480000 = 0x4029000000000000.
Proof. reflexivity. Qed.

Example widen_denormal : float64_of_float32 1 = 0x36A0000000000000.
Proof. reflexivity. Qed.

Example trunc_12_5 : int64_of_float64 0x4029000000000000 = 12.
Proof. reflexivity. Qed.

Example trunc_neg_12_5 : int64_of_float64 0xC029000000000000 = -12.
Proof. reflexivity. Qed.

Example trunc_neg_0_75 : int64_of_float64 0xBFE8000000000000 = 0.
Proof. reflexivity. Qed.

Example widen_signalling_nan :
  float64_of_float32 0x7F800001 = 0x7FF8000020000000.
Proof. reflexivity. Qed.

Example value_12_5 :
  float64Value 0x4029000000000000
  = Some {| negative := false; significand := 0x19000000000000;
            exponent := -49 |}.
Proof. reflexivity. Qed.

Example value_neg_12_5_float32 :
  float32Value 0xC1480000
  = Some {| negative := true; significand := 0xC80000; exponent := -20 |}.
Proof. reflexivity. Qed.

Example value_infinity : float64Value 0x7FF0000000000000 = None.
Proof. reflexivity. Qed.

Example integer_part_neg_12_5 :
  option_map truncTowardZero (float64Value 0xC029000000000000) = Some (-12).
Proof. reflexivity. Qed.

Example put16 : BigEndian.PutUint16 0x1234 = [x12; x34].
Proof. reflexivity. Qed.

Example get64 :
  BigEndian.Uint64 (BigEndian.PutUint64 0x0123456789abcdef) = 0x0123456789abcdef.
Proof. reflexivity. Qed.

Example marshal_text_name :
  @MarshalText hostless _ (bytesStatus Int FormatName) BytesActive (VInt Int 1)
  = Ok (list_byte_of_string "Active").
Proof. reflexivity. Qed.

Example marshal_text_value :
  @MarshalText hostless _ (bytesStatus Int FormatValue) BytesActive (VInt Int 1)
  = Ok (list_byte_of_string "1").
Proof. reflexivity. Qed.

Example unmarshal_text_99 :
  @UnmarshalText hostless _ (bytesStatus Int FormatValue) BytesActive
     (list_byte_of_string "99")
  = Err (unknownConstants (VString "99")).
Proof. reflexivity. Qed.

Example unmarshal_yaml_wrapped :
  @UnmarshalYAML hostless _ (bytesStatus Int32 FormatValue) BytesActive
     (@MockYAMLNode hostless (VInt Int 4294967395))
  = Err (unknownConstants (VInt Int32 99)).
Proof. reflexivity. Qed.

Example convert_42 :
  @Reflect.convertToTargetType hostless (VInt Int64 42) (VInt Int 0)
  = (None, VInt Int 0).
Proof. reflexivity. Qed.

Example scan_12_5 :
  @Scan hostless (VInt Int64 0) (VFloat64 0x4029000000000000)
  = (None, VInt Int64 12).
Proof. reflexivity. Qed.

(** ** Bytes and big-endian words *)

Lemma Zb_byteOf (z : Z) : Zb (byteOf z) = z mod 256.
Proof.
  unfold Zb, byteOf.
  assert (Hb : 0 <= z mod 256 < 256) by (apply Z.mod_pos_bound; lia).
  pose proof (byte_of_ascii_via_N (ascii_of_N (Z.to_N (z mod 256)))) as H.
  symmetry in H. apply Byte.to_of_N in H. rewrite H.
  rewrite N_ascii_embedding by lia.
  lia.
Qed.

Lemma Zb_range (b : byte) : 0 <= Zb b < 256.
Proof.
  unfold Zb. pose proof (Byte.to_N_bounded b). lia.
Qed.

Lemma byteOf_Zb (b : byte) : byteOf (Zb b) = b.
Proof.
  unfold byteOf. rewrite Z.mod_small by apply Zb_range.
  unfold Zb. rewrite N2Z.id, <- ascii_of_byte_via_N.
  apply byte_of_ascii_of_byte.
Qed.

Lemma lor_shiftl_add (a b k : Z) :
  0 <= k -> 0 <= a < 2 ^ k -> Z.lor a (Z.shiftl b k) = a + b * 2 ^ k.
Proof.
  intros Hk Ha.
  rewrite <- (Z.shiftl_mul_pow2 b k) by lia.
  rewrite <- Z.add_lor_land.
  assert (Z.land a (Z.shiftl b k) = 0) as ->; [|lia].
  apply Z.bits_inj'. intros n Hn.
  rewrite Z.land_spec, Z.bits_0.
  destruct (Z.ltb_spec n k).
  - rewrite (Z.shiftl_spec_low b k n) by lia. apply andb_false_r.
  - destruct (Z.eq_dec a 0) as [-> | ?]; [now rewrite Z.bits_0 |].
    rewrite (Z.bits_above_log2 a n); [reflexivity | lia |].
    apply Z.log2_lt_pow2; [lia |].
    apply Z.lt_le_trans with (2 ^ k); [lia |].
    apply Z.pow_le_mono_r; lia.
Qed.

Lemma split_low (w k : Z) :
  0 <= k -> w mod 2 ^ (k + 8) = w mod 2 ^ k + ((w / 2 ^ k) mod 256) * 2 ^ k.
Proof.
  intros Hk.
  rewrite Z.pow_add_r by lia.
  change (2 ^ 8) with 256.
  rewrite Z.rem_mul_r by lia.
  lia.
Qed.

Lemma Uint16_PutUint16 (w : Z) :
  0 <= w < 2 ^ 16 -> BigEndian.Uint16 (BigEndian.PutUint16 w) = w.
Proof.
  intros Hw. unfold BigEndian.Uint16, BigEndian.PutUint16, at_. cbn [nth].
  rewrite !Zb_byteOf, !Z.shiftr_div_pow2 by lia.
  rewrite lor_shiftl_add by (try lia; apply Z.mod_pos_bound; lia).
  rewrite <- (Z.mod_small w (2 ^ 16)) at 3 by lia.
  change 16 with (8 + 8). rewrite (split_low w 8) by lia.
  reflexivity.
Qed.

Lemma lor_step (w k k' : Z) :
  0 <= k -> k' = k + 8 ->
  Z.lor (w mod 2 ^ k) (Z.shiftl (Zb (byteOf (Z.shiftr w k))) k) = w mod 2 ^ k'.
Proof.
  intros Hk ->.
  rewrite Zb_byteOf, Z.shiftr_div_pow2 by lia.
  rewrite lor_shiftl_add by (try lia; apply Z.mod_pos_bound; lia).
  symmetry. apply split_low. lia.
Qed.

Lemma Uint32_PutUint32 (w : Z) :
  0 <= w < 2 ^ 32 -> BigEndian.Uint32 (BigEndian.PutUint32 w) = w.
Proof.
  intros Hw. unfold BigEndian.Uint32, BigEndian.PutUint32, at_. cbn [nth].
  rewrite (Zb_byteOf w). change (w mod 256) with (w mod 2 ^ 8).
  rewrite (lor_step w 8 16), (lor_step w 16 24), (lor_step w 24 32) by lia.
  apply Z.mod_small. lia.
Qed.

Lemma Uint64_PutUint64 (w : Z) :
  0 <= w < 2 ^ 64 -> BigEndian.Uint64 (BigEndian.PutUint64 w) = w.
Proof.
  intros Hw. unfold BigEndian.Uint64, BigEndian.PutUint64, at_. cbn [nth].
  rewrite (Zb_byteOf w). change (w mod 256) with (w mod 2 ^ 8).
  rewrite (lor_step w 8 16), (lor_step w 16 24), (lor_step w 24 32),
    (lor_step w 32 40), (lor_step w 40 48), (lor_step w 48 56),
    (lor_step w 56 64) by lia.
  apply Z.mod_small. lia.
Qed.

(** ** Integer conversions *)

Lemma inRange_bounds (k : IntKind) (z : Z) :
  inRange k z -> - 2 ^ 63 <= z < 2 ^ 64.
Proof.
  unfold inRange, minOf, maxOf. destruct k; cbn; lia.
Qed.

Lemma wrap_inRange (k : IntKind) (z : Z) : inRange k z -> wrap k z = z.
Proof.
  unfold inRange, minOf, maxOf, wrap.
  destruct k; cbn [signed bitSize andb]; intros H;
    repeat match goal with
           | |- context [?a <=? ?b] => destruct (Z.leb_spec a b)
           end;
    Z.to_euclidean_division_equations; lia.
Qed.

(** Reading an unsigned image back as the signed kind of the same width. *)
Lemma wrap_unsigned_image (k : IntKind) (z : Z) :
  inRange k z -> wrap k (z mod 2 ^ bitSize k) = z.
Proof.
  unfold inRange, minOf, maxOf, wrap.
  destruct k; cbn [signed bitSize andb]; intros H;
    rewrite ?Z.mod_mod by lia;
    repeat match goal with
           | |- context [?a <=? ?b] => destruct (Z.leb_spec a b)
           end;
    Z.to_euclidean_division_equations; lia.
Qed.

(** ** Decimal text *)

Lemma isDigit_digitVal (c : ascii) :
  strconv.isDigit c = true -> 0 <= strconv.digitVal c <= 9.
Proof.
  unfold strconv.isDigit, strconv.digitVal. lia.
Qed.

Lemma digitChar_spec (d : Z) :
  0 <= d <= 9 ->
  strconv.isDigit (strconv.digitChar d) = true /\
  strconv.digitVal (strconv.digitChar d) = d.
Proof.
  intros Hd. unfold strconv.isDigit, strconv.digitVal, strconv.digitChar.
  cbv zeta. rewrite N_ascii_embedding by lia.
  rewrite Z2N.id by lia. split; [| lia].
  apply andb_true_intro. split; apply Z.leb_le; lia.
Qed.

Lemma decVal_mono (s : string) (n : Z) :
  allDigits s = true -> 0 <= n -> n <= decVal s n.
Proof.
  revert n. induction s as [| c rest IH]; intros n Hs Hn; cbn in *; [lia |].
  apply andb_prop in Hs as [Hc Hrest].
  apply isDigit_digitVal in Hc.
  specialize (IH (n * 10 + strconv.digitVal c) Hrest). lia.
Qed.

(** The digit loop of [ParseUint] yields the number read, or reports a
    range error when that number exceeds [maxVal]. *)
Lemma parseLoop_spec (maxVal : Z) (s : string) (n : Z) :
  allDigits s = true -> 0 <= n <= maxVal -> maxVal <= strconv.maxUint64 ->
  strconv.parseLoop maxVal n s =
  if decVal s n <=? maxVal then inl (decVal s n) else inr ErrRange.
Proof.
  unfold strconv.maxUint64.
  revert n. induction s as [| c rest IH]; intros n Hs Hn Hmax; cbn [strconv.parseLoop decVal].
  - destruct (Z.leb_spec n maxVal); [reflexivity | lia].
  - cbn in Hs. apply andb_prop in Hs as [Hc Hrest]. rewrite Hc.
    pose proof (isDigit_digitVal c Hc) as Hd.
    set (d := strconv.digitVal c) in *.
    pose proof (decVal_mono rest (n * 10 + d) Hrest ltac:(lia)) as Hm.
    unfold strconv.maxUint64.
    change (2 ^ 64 - 1) with 18446744073709551615 in *.
    change ((18446744073709551615) / 10 + 1) with 1844674407370955162.
    change (2 ^ 64) with 18446744073709551616.
    destruct (Z.leb_spec 1844674407370955162 n).
    + destruct (Z.leb_spec (decVal rest (n * 10 + d)) maxVal); [lia | reflexivity].
    + rewrite (Z.mod_small (n * 10)) by lia.
      destruct (Z.ltb_spec (n * 10 + d) 18446744073709551616).
      * rewrite (Z.mod_small (n * 10 + d)) by lia.
        destruct (Z.ltb_spec (n * 10 + d) (n * 10)); [lia |].
        destruct (Z.ltb_spec maxVal (n * 10 + d)); cbn [orb].
        -- destruct (Z.leb_spec (decVal rest (n * 10 + d)) maxVal);
             [lia | reflexivity].
        -- apply IH; [assumption | lia | unfold strconv.maxUint64; lia].
      * assert (Hw : (n * 10 + d) mod 18446744073709551616 < n * 10)
          by (Z.to_euclidean_division_equations; lia).
        apply Z.ltb_lt in Hw. rewrite Hw. cbn [orb].
        destruct (Z.leb_spec (decVal rest (n * 10 + d)) maxVal);
          [lia | reflexivity].
Qed.

(** Whatever the loop accepts consists of digits only. *)
Lemma parseLoop_accepts (maxVal : Z) (s : string) (n r : Z) :
  strconv.parseLoop maxVal n s = inl r -> allDigits s = true.
Proof.
  revert n. induction s as [| c rest IH]; intros n H; cbn in *; [reflexivity |].
  destruct (strconv.isDigit c); [| discriminate].
  repeat match type of H with
         | (if ?b then _ else _) = _ => destruct b; [discriminate |]
         end.
  cbn. eauto.
Qed.

Lemma digits_spec (fuel : nat) (u : Z) (acc : string) :
  0 <= u < 10 ^ Z.of_nat fuel -> (0 < fuel)%nat -> allDigits acc = true ->
  allDigits (strconv.digits fuel u acc) = true /\
  decVal (strconv.digits fuel u acc) 0 = decVal acc u /\
  strconv.digits fuel u acc <> "".
Proof.
  revert u acc. induction fuel as [| fuel IH]; intros u acc Hu Hf Hacc; [lia |].
  cbn [strconv.digits].
  assert (Hd : 0 <= u mod 10 <= 9) by (pose proof (Z.mod_pos_bound u 10); lia).
  destruct (digitChar_spec _ Hd) as [Hc Hv].
  assert (Hacc' : allDigits (String (strconv.digitChar (u mod 10)) acc) = true)
    by (cbn; rewrite Hc, Hacc; reflexivity).
  destruct (Z.eqb_spec (u / 10) 0) as [Hz | Hz].
  - split; [assumption |]. split; [| discriminate].
    cbn [decVal]. rewrite Hv. f_equal.
    Z.to_euclidean_division_equations; lia.
  - rewrite Nat2Z.inj_succ, Z.pow_succ_r in Hu by lia.
    assert (Hq : 0 <= u / 10 < 10 ^ Z.of_nat fuel)
      by (Z.to_euclidean_division_equations; nia).
    assert (Hf' : (0 < fuel)%nat).
    { destruct fuel; [| lia]. cbn in Hq. lia. }
    destruct (IH (u / 10) _ Hq Hf' Hacc') as (Ha & Hb & Hc').
    split; [assumption |]. split; [| assumption].
    rewrite Hb. cbn [decVal]. rewrite Hv. f_equal.
    Z.to_euclidean_division_equations; lia.
Qed.

Lemma FormatUint_spec (u : Z) :
  0 <= u < 2 ^ 64 ->
  allDigits (strconv.FormatUint u) = true /\
  decVal (strconv.FormatUint u) 0 = u /\
  strconv.FormatUint u <> "".
Proof.
  intros Hu. unfold strconv.FormatUint.
  apply (digits_spec 20 u ""); [| lia | reflexivity].
  change (10 ^ Z.of_nat 20) with 100000000000000000000.
  change (2 ^ 64) with 18446744073709551616 in Hu. lia.
Qed.

Lemma parseUintRaw_digits (s : string) (bits : Z) :
  s <> "" -> allDigits s = true -> 0 < bits <= 64 ->
  strconv.parseUintRaw s bits =
  if decVal s 0 <=? 2 ^ bits - 1 then (decVal s 0, None)
  else (2 ^ bits - 1, Some ErrRange).
Proof.
  intros Hs Hd Hb. unfold strconv.parseUintRaw.
  destruct s as [| c rest]; [congruence |].
  assert (Hp : 2 ^ bits <= 2 ^ 64) by (apply Z.pow_le_mono_r; lia).
  assert (Hp0 : 0 < 2 ^ bits) by (apply Z.pow_pos_nonneg; lia).
  rewrite parseLoop_spec;
    [| assumption | lia | unfold strconv.maxUint64; lia].
  destruct (decVal (String c rest) 0 <=? 2 ^ bits - 1); reflexivity.
Qed.

(** Formatting an unsigned integer and parsing it back at a width that
    holds it. *)
Lemma ParseUint_FormatUint (u bits : Z) :
  0 < bits <= 64 -> 0 <= u <= 2 ^ bits - 1 ->
  strconv.ParseUint (strconv.FormatUint u) bits = Ok u.
Proof.
  intros Hb Hu.
  assert (Hp : 2 ^ bits <= 2 ^ 64) by (apply Z.pow_le_mono_r; lia).
  destruct (FormatUint_spec u ltac:(lia)) as (Hd & Hv & Hne).
  unfold strconv.ParseUint.
  rewrite parseUintRaw_digits by assumption.
  rewrite Hv. destruct (Z.leb_spec u (2 ^ bits - 1)); [reflexivity | lia].
Qed.

Lemma digits_no_sign (s : string) :
  allDigits s = true -> s <> "" ->
  exists c rest, s = String c rest /\
    Ascii.eqb c "+"%char = false /\ Ascii.eqb c "-"%char = false.
Proof.
  intros Hd Hs. destruct s as [| c rest]; [congruence |].
  exists c, rest. split; [reflexivity |].
  cbn in Hd. apply andb_prop in Hd as [Hc _].
  split; destruct (Ascii.eqb_spec c "+"%char), (Ascii.eqb_spec c "-"%char);
    subst; (reflexivity || discriminate).
Qed.

(** Formatting a signed integer and parsing it back at a width that
    holds it. *)
Lemma ParseInt_FormatInt (i bits : Z) :
  1 < bits <= 64 -> - 2 ^ (bits - 1) <= i <= 2 ^ (bits - 1) - 1 ->
  strconv.ParseInt (strconv.FormatInt i) bits = Ok i.
Proof.
  intros Hb Hi.
  assert (Hp : 2 ^ bits = 2 * 2 ^ (bits - 1)).
  { rewrite <- Z.pow_succ_r by lia. f_equal. lia. }
  assert (Hq : 2 ^ (bits - 1) <= 2 ^ 63) by (apply Z.pow_le_mono_r; lia).
  assert (Hq0 : 0 < 2 ^ (bits - 1)) by (apply Z.pow_pos_nonneg; lia).
  unfold strconv.FormatInt.
  destruct (Z.ltb_spec i 0) as [Hneg | Hpos].
  - destruct (FormatUint_spec (- i) ltac:(lia)) as (Hd & Hv & Hne).
    unfold strconv.ParseInt. cbn [Ascii.eqb Bool.eqb orb andb negb].
    rewrite parseUintRaw_digits by (assumption || lia).
    rewrite Hv.
    destruct (Z.leb_spec (- i) (2 ^ bits - 1)); [| lia].
    destruct (Z.ltb_spec (2 ^ (bits - 1)) (- i)); [lia |].
    f_equal. lia.
  - destruct (FormatUint_spec i ltac:(lia)) as (Hd & Hv & Hne).
    destruct (digits_no_sign _ Hd Hne) as (c & rest & Heq & Hplus & Hminus).
    unfold strconv.ParseInt. rewrite Heq, Hplus, Hminus. cbn [orb andb negb].
    rewrite <- Heq.
    rewrite parseUintRaw_digits by (assumption || lia).
    rewrite Hv.
    destruct (Z.leb_spec i (2 ^ bits - 1)); [| lia].
    destruct (Z.leb_spec (2 ^ (bits - 1)) i); [lia | reflexivity].
Qed.

(** ** The primitive codec: round trips *)

Lemma wrap_unsigned (k : IntKind) (z : Z) :
  signed k = false -> wrap k z = z mod 2 ^ bitSize k.
Proof.
  intros H. unfold wrap. rewrite H. reflexivity.
Qed.

Lemma mod_pow2_range (z n : Z) : 0 <= n -> 0 <= z mod 2 ^ n < 2 ^ n.
Proof.
  intros Hn. apply Z.mod_pos_bound. apply Z.pow_pos_nonneg; lia.
Qed.

Section RoundTrip.

Context {ext : Extern}.

Lemma binary_int_round_trip (k : IntKind) (z cur : Z) :
  inRange k z ->
  exists bs, anyToBinary (VInt k z) = Ok bs /\
             parseBinaryValue bs (VInt k cur) = (None, VInt k z).
Proof.
  intros Hz. pose proof (wrap_unsigned_image k z Hz) as Hs.
  pose proof (wrap_inRange k z Hz) as Hw.
  destruct k; eexists; (split; [reflexivity |]);
    unfold parseBinaryValue; cbn [len List.length BigEndian.PutUint16
      BigEndian.PutUint32 BigEndian.PutUint64 Z.of_nat Pos.of_succ_nat
      Pos.succ Z.eqb Z.ltb Z.compare Pos.compare Pos.compare_cont store];
    rewrite ?(wrap_unsigned Uint16), ?(wrap_unsigned Uint32),
      ?(wrap_unsigned Uint64) by reflexivity;
    cbn [bitSize];
    rewrite ?Uint16_PutUint16, ?Uint32_PutUint32, ?Uint64_PutUint64
      by (apply mod_pow2_range; lia);
    rewrite ?Uint16_PutUint16, ?Uint32_PutUint32, ?Uint64_PutUint64
      by (unfold inRange, minOf, maxOf in Hz; cbn in Hz; lia);
    try (unfold at_; cbn [nth]; rewrite Zb_byteOf);
    cbn [bitSize] in Hs; try rewrite Hs; try rewrite Hw; try reflexivity.
  - change (2 ^ 8) with 256 in Hs. rewrite Hs. reflexivity.
  - rewrite Z.mod_small; [reflexivity |].
    unfold inRange, minOf, maxOf in Hz; cbn in Hz; lia.
Qed.

Lemma binary_float_round_trip (b cur : Z) :
  (0 <= b < 2 ^ 32 ->
   exists bs, anyToBinary (VFloat32 b) = Ok bs /\
              parseBinaryValue bs (VFloat32 cur) = (None, VFloat32 b)) /\
  (0 <= b < 2 ^ 64 ->
   exists bs, anyToBinary (VFloat64 b) = Ok bs /\
              parseBinaryValue bs (VFloat64 cur) = (None, VFloat64 b)).
Proof.
  split; intros Hb; eexists; (split; [reflexivity |]);
    unfold parseBinaryValue; cbn -[BigEndian.Uint32 BigEndian.Uint64];
    rewrite ?Uint32_PutUint32, ?Uint64_PutUint64 by assumption;
    reflexivity.
Qed.

Lemma list_byte_of_string_nil (s : string) :
  list_byte_of_string s = [] -> s = "".
Proof.
  destruct s; [reflexivity | discriminate].
Qed.

Lemma len_zero (data : list byte) : (len data =? 0) = true -> data = [].
Proof.
  unfold len. destruct data; [reflexivity |]. cbn [List.length].
    intros H. apply Z.eqb_eq in H. lia.
Qed.

Lemma len_nonzero (data : list byte) :
  data <> [] -> (len data =? 0) = false.
Proof.
  unfold len. destruct data; [congruence |]. cbn [List.length].
    intros _. apply Z.eqb_neq. lia.
Qed.

Lemma binary_string_round_trip (s cur : string) :
  s <> "" ->
  exists bs, anyToBinary (VString s) = Ok bs /\
             parseBinaryValue bs (VString cur) = (None, VString s).
Proof.
  intros Hs. eexists. split; [reflexivity |].
  unfold parseBinaryValue. rewrite len_nonzero.
  - unfold store. now rewrite string_of_list_byte_of_string.
  - intros H. apply list_byte_of_string_nil in H. contradiction.
Qed.

Lemma binary_bytes_round_trip (b cur : list byte) :
  b <> [] ->
  exists bs, anyToBinary (VBytes b) = Ok bs /\
             parseBinaryValue bs (VBytes cur) = (None, VBytes b).
Proof.
  intros Hb. eexists. split; [reflexivity |].
  unfold parseBinaryValue. now rewrite len_nonzero.
Qed.

Lemma text_int_round_trip (k : IntKind) (z cur : Z) :
  inRange k z ->
  exists s, anyToString (VInt k z) = Ok s /\
            parseStringValue s (VInt k cur) = (None, VInt k z).
Proof.
  intros Hz. pose proof (wrap_inRange k z Hz) as Hw.
  unfold anyToString, parseStringValue.
  destruct (signed k) eqn:Hk.
  - assert (wrap Int64 z = z) as ->.
    { apply wrap_inRange. unfold inRange, minOf, maxOf in *.
      destruct k; cbn in *; try discriminate; lia. }
    eexists. split; [reflexivity |].
    rewrite ParseInt_FormatInt.
    + unfold store. now rewrite Hw.
    + destruct k; cbn; lia.
    + unfold inRange, minOf, maxOf in Hz. rewrite Hk in Hz. lia.
  - assert (wrap Uint64 z = z) as ->.
    { apply wrap_inRange. unfold inRange, minOf, maxOf in *.
      destruct k; cbn in *; try discriminate; lia. }
    eexists. split; [reflexivity |].
    rewrite ParseUint_FormatUint.
    + unfold store. now rewrite Hw.
    + destruct k; cbn; lia.
    + unfold inRange, minOf, maxOf in Hz. rewrite Hk in Hz. lia.
Qed.

Lemma text_bool_round_trip (b cur : bool) :
  exists s, anyToString (VBool b) = Ok s /\
            parseStringValue s (VBool cur) = (None, VBool b).
Proof.
  destruct b; eexists; (split; [reflexivity | reflexivity]).
Qed.

(** A target of a primitive's type holds a value built the same way. *)
Lemma target_shape (v target : any) :
  primitive v = true -> wellFormed target -> typeOf target = typeOf v ->
  match v with
  | VInt k _ => exists cur, target = VInt k cur
  | VFloat32 _ => exists cur, target = VFloat32 cur
  | VFloat64 _ => exists cur, target = VFloat64 cur
  | VBool _ => exists cur, target = VBool cur
  | VString _ => exists cur, target = VString cur
  | VBytes _ => exists cur, target = VBytes cur
  | _ => False
  end.
Proof.
  intros Hp Hwf Ht.
  destruct v; try discriminate Hp;
    destruct target; cbn in Ht; try discriminate Ht;
    try (subst; cbn in Hwf; discriminate Hwf);
    try (injection Ht as ->); eauto.
Qed.

End RoundTrip.

(** ** Floating-point values *)

Lemma float64_fields (b : Z) :
  0 <= b < 2 ^ 64 ->
  Z.land (Z.shiftr b 52) 2047 = (b / 2 ^ 52) mod 2 ^ 11 /\
  Z.land b (2 ^ 52 - 1) = b mod 2 ^ 52 /\
  Z.testbit b 63 = (2 ^ 63 <=? b).
Proof.
  intros Hb. split; [| split].
  - rewrite Z.shiftr_div_pow2 by lia.
    change 2047 with (Z.ones 11). apply Z.land_ones. lia.
  - change (2 ^ 52 - 1) with (Z.ones 52). apply Z.land_ones. lia.
  - pose proof (Z.testbit_spec' b 63 ltac:(lia)) as Ht.
    destruct (Z.testbit b 63); cbn [Z.b2z] in Ht;
      destruct (Z.leb_spec (2 ^ 63) b); try reflexivity; exfalso;
      change (2 ^ 63) with 9223372036854775808 in *;
      change (2 ^ 64) with 18446744073709551616 in *;
      Z.to_euclidean_division_equations; lia.
Qed.

Lemma truncFloat64_spec (f : Z) (x : binaryFloat) :
  0 <= f < 2 ^ 64 -> float64Value f = Some x ->
  Z.land (Z.shiftr f 52) 2047 <> 2047 /\
  truncFloat64 f = truncTowardZero x.
Proof.
  intros Hf Hx. destruct (float64_fields f Hf) as (He & Hm & Hs).
  unfold truncFloat64. rewrite He, Hm, Hs.
  unfold float64Value, floatValue in Hx.
  change (2 ^ 11 - 1) with 2047 in Hx.
  change (52 + 11) with 63 in Hx.
  change (2 ^ (11 - 1) - 1) with 1023 in Hx.
  set (e := (f / 2 ^ 52) mod 2 ^ 11) in *.
  set (m := f mod 2 ^ 52) in *.
  assert (Hm' : 0 <= m < 2 ^ 52) by (apply Z.mod_pos_bound; lia).
  assert (He' : 0 <= e < 2 ^ 11) by (apply Z.mod_pos_bound; lia).
  clearbody e m.
  destruct (Z.eqb_spec e 2047) as [| Hfin]; [discriminate |].
  split; [assumption |].
  unfold truncTowardZero.
  destruct (Z.eqb_spec e 0) as [He0 | He0];
    apply (f_equal (fun o => match o with Some y => y | None => x end)) in Hx;
    cbv beta iota in Hx; subst x;
    cbv [negative significand exponent].
  - change (Z.max (1 - 1023 - 52) 0) with 0.
    change (Z.max (- (1 - 1023 - 52)) 0) with 1074.
    rewrite Z.pow_0_r, Z.mul_1_r.
    assert (Hsmall : m ÷ 2 ^ 1074 = 0).
    { apply Z.quot_small. split; [lia |].
      apply Z.lt_le_trans with (2 ^ 52); [lia |].
      apply Z.pow_le_mono_r; lia. }
    destruct (2 ^ 63 <=? f).
    + rewrite Z.quot_opp_l, Hsmall by (apply Z.pow_nonzero; lia). reflexivity.
    + symmetry. assumption.
  - assert (Hsig : 0 <= 2 ^ 52 + m) by lia.
    assert (Hmag : Z.shiftl (2 ^ 52 + m) (e - 1075)
                   = (2 ^ 52 + m) * 2 ^ Z.max (e - 1023 - 52) 0
                     ÷ 2 ^ Z.max (- (e - 1023 - 52)) 0).
    { destruct (Z.le_gt_cases 1075 e).
      - rewrite Z.shiftl_mul_pow2 by lia.
        replace (Z.max (e - 1023 - 52) 0) with (e - 1075) by lia.
        replace (Z.max (- (e - 1023 - 52)) 0) with 0 by lia.
        rewrite Z.pow_0_r, Z.quot_1_r. reflexivity.
      - rewrite Z.shiftl_div_pow2 by lia.
        replace (Z.max (e - 1023 - 52) 0) with 0 by lia.
        replace (Z.max (- (e - 1023 - 52)) 0) with (- (e - 1075)) by lia.
        rewrite Z.pow_0_r, Z.mul_1_r.
        symmetry. apply Z.quot_div_nonneg; [lia |].
        apply Z.pow_pos_nonneg; lia. }
    rewrite Hmag.
    destruct (2 ^ 63 <=? f); [| reflexivity].
    rewrite Z.mul_opp_l, Z.quot_opp_l; [reflexivity |].
    apply Z.pow_nonzero; lia.
Qed.

(** Scaling the significand up and the exponent down by the same power
    of two leaves the integer part as it was. *)
Lemma trunc_scale (neg : bool) (sig exp c : Z) :
  0 <= c ->
  truncTowardZero {| negative := neg; significand := sig * 2 ^ c;
                     exponent := exp - c |}
  = truncTowardZero {| negative := neg; significand := sig; exponent := exp |}.
Proof.
  intros Hc. unfold truncTowardZero. cbn [negative significand exponent].
  set (n := if neg then - sig else sig).
  assert (Hn : (if neg then - (sig * 2 ^ c) else sig * 2 ^ c) = n * 2 ^ c)
    by (subst n; destruct neg; ring).
  rewrite Hn. clear Hn.
  destruct (Z.le_gt_cases exp 0) as [Hle | Hgt].
  - replace (Z.max (exp - c) 0) with 0 by lia.
    replace (Z.max exp 0) with 0 by lia.
    replace (Z.max (- (exp - c)) 0) with (- exp + c) by lia.
    replace (Z.max (- exp) 0) with (- exp) by lia.
    rewrite Z.pow_0_r, !Z.mul_1_r, Z.pow_add_r by lia.
    apply Z.quot_mul_cancel_r; apply Z.pow_nonzero; lia.
  - replace (Z.max exp 0) with exp by lia.
    replace (Z.max (- exp) 0) with 0 by lia.
    rewrite (Z.pow_0_r 2), Z.quot_1_r.
    destruct (Z.le_gt_cases c exp) as [Hce | Hce].
    + replace (Z.max (exp - c) 0) with (exp - c) by lia.
      replace (Z.max (- (exp - c)) 0) with 0 by lia.
      rewrite Z.pow_0_r, Z.quot_1_r, <- Z.mul_assoc, <- Z.pow_add_r by lia.
      do 2 f_equal. lia.
    + replace (Z.max (exp - c) 0) with 0 by lia.
      replace (Z.max (- (exp - c)) 0) with (c - exp) by lia.
      rewrite Z.pow_0_r, Z.mul_1_r.
      replace c with (exp + (c - exp)) at 1 by lia.
      rewrite Z.pow_add_r, Z.mul_assoc by lia.
      apply Z.quot_mul. apply Z.pow_nonzero; lia.
Qed.

Lemma float64Value_pack (s : bool) (E M : Z) :
  0 <= E < 2047 -> 0 <= M < 2 ^ 52 ->
  let b := (if s then 2 ^ 63 else 0) + E * 2 ^ 52 + M in
  0 <= b < 2 ^ 64 /\
  float64Value b
  = Some {| negative := s;
            significand := if E =? 0 then M else 2 ^ 52 + M;
            exponent := (if E =? 0 then 1 else E) - 1075 |}.
Proof.
  intros HE HM b.
  assert (Hb : 0 <= b < 2 ^ 64).
  { subst b. destruct s;
      change (2 ^ 63) with 9223372036854775808;
      change (2 ^ 64) with 18446744073709551616;
      change (2 ^ 52) with 4503599627370496 in *; lia. }
  split; [assumption |].
  assert (Hshape : b = M + ((if s then 2 ^ 11 else 0) + E) * 2 ^ 52).
  { subst b. destruct s; [change (2 ^ 63) with (2 ^ 11 * 2 ^ 52) |]; ring. }
  assert (Hfrac : b mod 2 ^ 52 = M).
  { rewrite Hshape, Z.mod_add by (apply Z.pow_nonzero; lia).
    apply Z.mod_small. assumption. }
  assert (Hdiv : b / 2 ^ 52 = (if s then 2 ^ 11 else 0) + E).
  { rewrite Hshape, Z.div_add by (apply Z.pow_nonzero; lia).
    rewrite Z.div_small by assumption. reflexivity. }
  assert (Hexp : (b / 2 ^ 52) mod 2 ^ 11 = E).
  { rewrite Hdiv. destruct s.
    - replace (2 ^ 11 + E) with (E + 1 * 2 ^ 11) by ring.
      rewrite Z.mod_add by (apply Z.pow_nonzero; lia).
      apply Z.mod_small. change (2 ^ 11) with 2048. lia.
    - apply Z.mod_small. change (2 ^ 11) with 2048. lia. }
  assert (Hsign : (2 ^ 63 <=? b) = s).
  { subst b. destruct s.
    - apply Z.leb_le. change (2 ^ 52) with 4503599627370496 in *. lia.
    - apply Z.leb_gt.
      change (2 ^ 63) with 9223372036854775808;
      change (2 ^ 52) with 4503599627370496 in *; lia. }
  unfold float64Value, floatValue.
  change (52 + 11) with 63. change (2 ^ 11 - 1) with 2047.
  change (2 ^ (11 - 1) - 1) with 1023.
  rewrite Hfrac, Hexp, Hsign. clearbody b.
  destruct (Z.eqb_spec E 2047); [lia |].
  destruct (Z.eqb_spec E 0); do 2 f_equal; lia.
Qed.

Lemma float32_fields (b : Z) :
  0 <= b < 2 ^ 32 ->
  Z.land (Z.shiftr b 23) 255 = (b / 2 ^ 23) mod 2 ^ 8 /\
  Z.land b (2 ^ 23 - 1) = b mod 2 ^ 23 /\
  Z.shiftl (Z.shiftr b 31) 63 = (if 2 ^ 31 <=? b then 2 ^ 63 else 0).
Proof.
  intros Hb. split; [| split].
  - rewrite Z.shiftr_div_pow2 by lia.
    change 255 with (Z.ones 8). apply Z.land_ones. lia.
  - change (2 ^ 23 - 1) with (Z.ones 23). apply Z.land_ones. lia.
  - rewrite Z.shiftr_div_pow2, Z.shiftl_mul_pow2 by lia.
    change (2 ^ 32) with 4294967296 in Hb.
    change (2 ^ 31) with 2147483648.
    destruct (Z.leb_spec 2147483648 b).
    + replace (b / 2147483648) with 1; [reflexivity |].
      Z.to_euclidean_division_equations; lia.
    + replace (b / 2147483648) with 0; [reflexivity |].
      Z.to_euclidean_division_equations; lia.
Qed.

(** Widening a finite [float32] is exact: the [float64] denotes the same
    number, with the significand scaled up by a power of two and the
    exponent down by as much. *)
Lemma float64_of_float32_exact (f : Z) (x : binaryFloat) :
  0 <= f < 2 ^ 32 -> float32Value f = Some x ->
  0 <= float64_of_float32 f < 2 ^ 64 /\
  exists c,
    0 <= c /\
    float64Value (float64_of_float32 f)
    = Some {| negative := negative x;
              significand := significand x * 2 ^ c;
              exponent := exponent x - c |}.
Proof.
  intros Hf Hx. destruct (float32_fields f Hf) as (He & Hm & Hs).
  unfold float64_of_float32. cbv zeta. rewrite He, Hm, Hs.
  unfold float32Value, floatValue in Hx.
  change (23 + 8) with 31 in Hx. change (2 ^ 8 - 1) with 255 in Hx.
  change (2 ^ (8 - 1) - 1) with 127 in Hx.
  set (e := (f / 2 ^ 23) mod 2 ^ 8) in *.
  set (m := f mod 2 ^ 23) in *.
  set (s := 2 ^ 31 <=? f) in *.
  assert (Hm' : 0 <= m < 2 ^ 23) by (apply Z.mod_pos_bound; lia).
  assert (He' : 0 <= e < 2 ^ 8) by (apply Z.mod_pos_bound; lia).
  clearbody e m s. clear He Hm Hs.
  change (2 ^ 8) with 256 in He'.
  destruct (Z.eqb_spec e 255) as [| Hfin]; [discriminate |].
  destruct (Z.eqb_spec e 0) as [He0 | He0];
    apply (f_equal (fun o => match o with Some y => y | None => x end)) in Hx;
    cbv beta iota in Hx; subst x;
    cbv [negative significand exponent].
  - destruct (Z.eqb_spec m 0) as [-> | Hm0].
    + replace (if s then 2 ^ 63 else 0)
        with ((if s then 2 ^ 63 else 0) + 0 * 2 ^ 52 + 0) by ring.
      destruct (float64Value_pack s 0 0 ltac:(lia) ltac:(lia)) as [Hr Hv].
      cbv zeta in Hr, Hv. split; [exact Hr |].
      exists 925. split; [lia |]. rewrite Hv. reflexivity.
    + assert (Hpos : 0 < m) by lia.
      pose proof (Z.log2_spec m Hpos) as Hk.
      pose proof (Z.log2_nonneg m) as Hk0.
      set (k := Z.log2 m) in *. clearbody k.
      assert (Hk22 : k < 23).
      { apply (Z.pow_lt_mono_r_iff 2); lia. }
      rewrite Z.pow_succ_r in Hk by assumption.
      assert (Hsplit : 2 ^ k * 2 ^ (52 - k) = 2 ^ 52)
        by (rewrite <- Z.pow_add_r by lia; f_equal; lia).
      assert (Hq : 0 < 2 ^ (52 - k)) by (apply Z.pow_pos_nonneg; lia).
      rewrite (Z.shiftl_mul_pow2 (k - 149 + 1023)) by lia.
      rewrite (Z.shiftl_mul_pow2 (m - 2 ^ k)) by lia.
      destruct (float64Value_pack s (k - 149 + 1023)
                  ((m - 2 ^ k) * 2 ^ (52 - k)) ltac:(lia) ltac:(nia))
        as [Hr Hv].
      cbv zeta in Hr, Hv. split; [exact Hr |].
      exists (52 - k). split; [lia |]. rewrite Hv.
      destruct (Z.eqb_spec (k - 149 + 1023) 0); [lia |].
      do 2 f_equal; [nia | lia].
  - rewrite (Z.shiftl_mul_pow2 (e - 127 + 1023)) by lia.
    rewrite (Z.shiftl_mul_pow2 m) by lia.
    destruct (float64Value_pack s (e - 127 + 1023) (m * 2 ^ 29)
                ltac:(lia)
                ltac:(change (2 ^ 52) with (2 ^ 23 * 2 ^ 29);
                      change (2 ^ 29) with 536870912; lia))
      as [Hr Hv].
    cbv zeta in Hr, Hv. split; [exact Hr |].
    exists 29. split; [lia |]. rewrite Hv.
    destruct (Z.eqb_spec (e - 127 + 1023) 0); [lia |].
    do 2 f_equal; [| lia].
    change (2 ^ 52) with (2 ^ 23 * 2 ^ 29). ring.
Qed.

(** * The claims of the specification *)

Section RoundTripClaims.

Context {ext : Extern}.

(** C1, as amended.  For every primitive value [v] in range and every
    target of its type, decoding the binary encoding of [v] returns [v],
    except that an empty string or an empty byte sequence encodes to
    zero bytes, which the decoder rejects as empty data, leaving the
    target as it was; and decoding the text encoding of [v] returns
    [v], for a float up to the formatting precision of its bit width:
    wherever [strconv] parses the text it formats back to the float. *)
Theorem codec_round_trip (v target : any) :
  wellFormed v -> primitive v = true ->
  wellFormed target -> typeOf target = typeOf v ->
  (exists bs, anyToBinary v = Ok bs /\
     parseBinaryValue bs target =
     if isEmpty v then (Some emptyData, target) else (None, v)) /\
  (strconvRoundTrips v ->
   exists s, anyToString v = Ok s /\ parseStringValue s target = (None, v)).
Proof.
  intros Hv Hp Ht Hty.
  pose proof (target_shape v target Hp Ht Hty) as Hshape.
  destruct v; try discriminate Hp; destruct Hshape as [cur ->];
    cbn [isEmpty strconvRoundTrips]; cbn [wellFormed] in Hv.
  - split; [apply binary_int_round_trip | intros _; apply text_int_round_trip];
      assumption.
  - split; [now apply (proj1 (binary_float_round_trip bits cur)) |].
    intros (g & Hparse & Hnarrow). eexists. split; [reflexivity |].
    unfold parseStringValue. rewrite Hparse, Hnarrow. reflexivity.
  - split; [now apply (proj2 (binary_float_round_trip bits cur)) |].
    intros Hparse. eexists. split; [reflexivity |].
    unfold parseStringValue. rewrite Hparse. reflexivity.
  - split; [| intros _; apply text_bool_round_trip].
    destruct b; eexists; (split; [reflexivity | reflexivity]).
  - split.
    + destruct (String.eqb_spec s "") as [-> | Hs].
      * exists []. split; reflexivity.
      * now apply binary_string_round_trip.
    + intros _. exists s. split; reflexivity.
  - split.
    + destruct b as [| b0 b].
      * exists []. split; reflexivity.
      * apply binary_bytes_round_trip. discriminate.
    + intros _. eexists. split; [reflexivity |].
      cbn. unfold store. now rewrite list_byte_of_string_of_list_byte.
Qed.

End RoundTripClaims.

(** C1 as stated fails at the empty string: it encodes to no bytes, and
    the decoder at kind string returns the empty-data error. *)
Lemma binary_round_trip_fails_on_empty_string :
  @anyToBinary hostless (VString "") = Ok [] /\
  @parseBinaryValue hostless [] (zeroValue TString)
  = (Some emptyData, VString "") /\
  @parseBinaryValue hostless [] (zeroValue TString) <> (None, VString "").
Proof.
  repeat split. discriminate.
Qed.

Lemma codec_round_trip_witness :
  (exists bs, @anyToBinary sampleHost (VFloat32 0xBF400000) = Ok bs /\
     @parseBinaryValue sampleHost bs (VFloat32 0)
     = (None, VFloat32 0xBF400000)) /\
  (exists s, @anyToString sampleHost (VFloat32 0xBF400000) = Ok s /\
             @parseStringValue sampleHost s (VFloat32 0)
             = (None, VFloat32 0xBF400000)).
Proof.
  destruct (@codec_round_trip sampleHost (VFloat32 0xBF400000) (VFloat32 0))
    as [Hbinary Htext].
  - vm_compute. split; [discriminate | reflexivity].
  - reflexivity.
  - vm_compute. split; [discriminate | reflexivity].
  - reflexivity.
  - split; [exact Hbinary |]. apply Htext.
    exists 0xBFE8000000000000. split; reflexivity.
Defined.

Lemma split_at (w k k' : Z) :
  0 <= k -> k' = k + 8 ->
  w mod 2 ^ k' = w mod 2 ^ k + ((w / 2 ^ k) mod 256) * 2 ^ k.
Proof.
  intros Hk ->. now apply split_low.
Qed.

Lemma bigEndianValue_PutUint16 (w : Z) :
  bigEndianValue (BigEndian.PutUint16 w) = w mod 2 ^ 16.
Proof.
  unfold bigEndianValue, BigEndian.PutUint16. cbn [fold_left].
  rewrite !Zb_byteOf, !Z.shiftr_div_pow2 by lia.
  rewrite (split_at w 8 16) by lia.
  change (2 ^ 8) with 256. lia.
Qed.

Lemma bigEndianValue_PutUint32 (w : Z) :
  bigEndianValue (BigEndian.PutUint32 w) = w mod 2 ^ 32.
Proof.
  unfold bigEndianValue, BigEndian.PutUint32. cbn [fold_left].
  rewrite !Zb_byteOf, !Z.shiftr_div_pow2 by lia.
  rewrite (split_at w 24 32), (split_at w 16 24), (split_at w 8 16) by lia.
  change (2 ^ 8) with 256. lia.
Qed.

Lemma bigEndianValue_PutUint64 (w : Z) :
  bigEndianValue (BigEndian.PutUint64 w) = w mod 2 ^ 64.
Proof.
  unfold bigEndianValue, BigEndian.PutUint64. cbn [fold_left].
  rewrite !Zb_byteOf, !Z.shiftr_div_pow2 by lia.
  rewrite (split_at w 56 64), (split_at w 48 56), (split_at w 40 48),
    (split_at w 32 40), (split_at w 24 32), (split_at w 16 24),
    (split_at w 8 16) by lia.
  change (2 ^ 8) with 256. lia.
Qed.

Section CodecClaims.

Context {ext : Extern}.

(** C5.  Binary decode of zero bytes fails with the empty-data error
    at every target, and binary decode of one or more bytes, but fewer
    than a fixed-width target needs, fails with the insufficient-data
    error naming the target's type; the target is left as it was. *)
Theorem binary_width_enforced (data : list byte) (target : any) :
  (data = [] -> parseBinaryValue data target = (Some emptyData, target)) /\
  (forall bits name,
      wellFormed target ->
      fixedWidth (typeOf target) = Some (bits, name) ->
      data <> [] -> len data < bits / 8 ->
      parseBinaryValue data target = (Some (insufficient name), target)).
Proof.
  split.
  - intros ->. reflexivity.
  - intros bits name Hwf Hfw Hne Hlen.
    unfold parseBinaryValue. rewrite (len_nonzero data Hne).
    destruct target; cbn in Hfw; try discriminate Hfw.
    + injection Hfw as <- <-.
      destruct k; cbn in Hlen |- *;
        match goal with
        | |- context [?a <? ?b] => destruct (Z.ltb_spec a b)
        end; solve [reflexivity | lia].
    + injection Hfw as <- <-. cbn in Hlen.
      destruct (Z.ltb_spec (len data) 4); [reflexivity | lia].
    + injection Hfw as <- <-. cbn in Hlen.
      destruct (Z.ltb_spec (len data) 8); [reflexivity | lia].
    + injection Hfw as <- <-. cbn in Hlen.
      destruct (Z.ltb_spec (len data) 1); [reflexivity | lia].
    + cbn in Hwf. destruct t; try discriminate Hfw; discriminate Hwf.
Qed.

(** C6.  The 16-bit integer 0x1234 encodes to the bytes 0x12, 0x34;
    true encodes to the byte 0x01 and false to 0x00; and every value of
    an N-bit integer or float kind (and every boolean, with N = 8)
    encodes to exactly N/8 bytes, which read most significant byte
    first are the bits of the value: no prefix, no padding. *)
Theorem binary_encoding_big_endian :
  anyToBinary (VInt Int16 0x1234) = Ok [x12; x34] /\
  anyToBinary (VBool true) = Ok [x01] /\
  anyToBinary (VBool false) = Ok [x00] /\
  (forall v bits name,
      wellFormed v -> fixedWidth (typeOf v) = Some (bits, name) ->
      exists bs, anyToBinary v = Ok bs /\
                 len bs = bits / 8 /\ bigEndianValue bs = bitsOf v).
Proof.
  repeat split; try reflexivity.
  - intros v bits name Hwf Hfw.
    destruct v; cbn in Hfw; try discriminate Hfw.
    + injection Hfw as <- <-.
      destruct k; eexists; (split; [reflexivity |]); (split; [reflexivity |]);
        rewrite ?(wrap_unsigned Uint16), ?(wrap_unsigned Uint32),
          ?(wrap_unsigned Uint64) by reflexivity;
        rewrite ?bigEndianValue_PutUint16, ?bigEndianValue_PutUint32,
          ?bigEndianValue_PutUint64;
        cbn [bitsOf bitSize]; rewrite ?Z.mod_mod by lia; try reflexivity;
        unfold bigEndianValue; cbn [fold_left]; rewrite Zb_byteOf;
        reflexivity.
    + injection Hfw as <- <-. eexists. split; [reflexivity |].
      split; [reflexivity |].
      rewrite bigEndianValue_PutUint32. now apply Z.mod_small.
    + injection Hfw as <- <-. eexists. split; [reflexivity |].
      split; [reflexivity |].
      rewrite bigEndianValue_PutUint64. now apply Z.mod_small.
    + injection Hfw as <- <-.
      destruct b; eexists; (split; [reflexivity |]); split; reflexivity.
    + cbn in Hwf. destruct t; try discriminate Hfw; discriminate Hwf.
Qed.

End CodecClaims.

Lemma digitsValue_inv (s : string) (z : Z) :
  digitsValue s = Some z ->
  s <> "" /\ allDigits s = true /\ z = decVal s 0 /\ 0 <= z.
Proof.
  unfold digitsValue. destruct s as [| c rest]; [discriminate |].
  destruct (allDigits (String c rest)) eqn:Hd; [| discriminate].
  intros [= <-]. repeat split; try assumption; try discriminate.
  apply (decVal_mono (String c rest) 0); [assumption | lia].
Qed.

Lemma pow2_half (bits : Z) :
  8 <= bits <= 64 ->
  2 ^ bits = 2 * 2 ^ (bits - 1) /\ 128 <= 2 ^ (bits - 1).
Proof.
  intros Hb. split.
  - rewrite <- Z.pow_succ_r by lia. f_equal. lia.
  - change 128 with (2 ^ 7). apply Z.pow_le_mono_r; lia.
Qed.

(** [ParseInt] at a numeral, after the sign has been taken off. *)
Lemma ParseInt_out_of_range (s0 : string) (c : ascii) (rest s : string)
      (neg : bool) (m bits : Z) :
  s0 = String c rest ->
  neg = Ascii.eqb c "-"%char ->
  s = (if Ascii.eqb c "+"%char || neg then rest else s0) ->
  digitsValue s = Some m -> 8 <= bits <= 64 ->
  ~ (- 2 ^ (bits - 1) <= (if neg then - m else m) <= 2 ^ (bits - 1) - 1) ->
  strconv.ParseInt s0 bits = Err (NumError "ParseInt" s0 ErrRange).
Proof.
  intros -> Hneg Hs Hm Hb Hout.
  apply digitsValue_inv in Hm as (Hne & Hd & -> & Hpos).
  destruct (pow2_half bits Hb) as [Hp Hq].
  unfold strconv.ParseInt. rewrite <- Hneg, <- Hs.
  rewrite parseUintRaw_digits by (assumption || lia).
  destruct (Z.leb_spec (decVal s 0) (2 ^ bits - 1)).
  - destruct neg; cbn [negb andb].
    + destruct (Z.ltb_spec (2 ^ (bits - 1)) (decVal s 0)); [reflexivity | lia].
    + destruct (Z.leb_spec (2 ^ (bits - 1)) (decVal s 0)); [reflexivity | lia].
  - destruct neg; cbn [negb andb].
    + destruct (Z.ltb_spec (2 ^ (bits - 1)) (2 ^ bits - 1)); [reflexivity | lia].
    + destruct (Z.leb_spec (2 ^ (bits - 1)) (2 ^ bits - 1)); [reflexivity | lia].
Qed.

Lemma ParseUint_sign (c : ascii) (rest : string) (bits : Z) :
  strconv.isDigit c = false ->
  strconv.ParseUint (String c rest) bits
  = Err (NumError "ParseUint" (String c rest) ErrSyntax).
Proof.
  intros Hc. unfold strconv.ParseUint, strconv.parseUintRaw.
  cbn [strconv.parseLoop]. rewrite Hc. reflexivity.
Qed.

Section TextClaims.

Context {ext : Extern}.

(** C9.  Decoding the text "1000" into an int8 target fails, decoding
    "256" into a uint8 target fails, and for every integer target kind
    every base-10 numeral whose value lies outside the range of the
    kind is refused with a [strconv] parse error, the target left as it
    was. *)
Theorem text_decode_overflow (k : IntKind) (cur : Z) :
  parseStringValue "1000" (VInt Int8 cur)
  = (Some (NumError "ParseInt" "1000" ErrRange), VInt Int8 cur) /\
  parseStringValue "256" (VInt Uint8 cur)
  = (Some (NumError "ParseUint" "256" ErrRange), VInt Uint8 cur) /\
  (forall str z,
      numeralValue str = Some z -> ~ inRange k z ->
      exists fn e,
        parseStringValue str (VInt k cur)
        = (Some (NumError fn str e), VInt k cur)).
Proof.
  split; [reflexivity |]. split; [reflexivity |].
  intros str z Hnum Hout.
  assert (Hb : 8 <= bitSize k <= 64) by (destruct k; cbn; lia).
  unfold parseStringValue.
  destruct str as [| c rest]; [discriminate |].
  cbn [numeralValue] in Hnum.
  unfold inRange, minOf, maxOf in Hout.
  destruct (signed k) eqn:Hk.
  - exists "ParseInt", ErrRange.
    assert (Hsplit : exists s m,
               s = (if Ascii.eqb c "+"%char || Ascii.eqb c "-"%char
                    then rest else String c rest) /\
               digitsValue s = Some m /\
               z = if Ascii.eqb c "-"%char then - m else m).
    { destruct (Ascii.eqb c "-"%char).
      - rewrite orb_true_r.
        destruct (digitsValue rest) as [m |] eqn:Hm; [| discriminate].
        injection Hnum as <-. eauto.
      - rewrite orb_false_r. destruct (Ascii.eqb c "+"%char); eauto. }
    destruct Hsplit as (s & m & Hs & Hm & ->).
    now rewrite (ParseInt_out_of_range (String c rest) c rest s
                   (Ascii.eqb c "-"%char) m (bitSize k)).
  - destruct (Ascii.eqb_spec c "-"%char) as [-> | Hminus].
    { exists "ParseUint", ErrSyntax. now rewrite ParseUint_sign. }
    destruct (Ascii.eqb_spec c "+"%char) as [-> | Hplus].
    { exists "ParseUint", ErrSyntax. now rewrite ParseUint_sign. }
    apply digitsValue_inv in Hnum as (Hne & Hd & -> & Hpos).
    exists "ParseUint", ErrRange.
    unfold strconv.ParseUint.
    rewrite parseUintRaw_digits by (assumption || lia).
    destruct (Z.leb_spec (decVal (String c rest) 0) (2 ^ bitSize k - 1));
      [lia | reflexivity].
Qed.

End TextClaims.

(** ** The scanner *)

Lemma parseUintRaw_not_digits (s : string) (bits : Z) :
  digitsValue s = None ->
  exists un e, strconv.parseUintRaw s bits = (un, Some e) /\
               (e = ErrRange -> un = 2 ^ bits - 1).
Proof.
  intros Hs. unfold strconv.parseUintRaw.
  destruct s as [| c rest]; [exists 0, ErrSyntax; split; [reflexivity | discriminate] |].
  destruct (strconv.parseLoop (2 ^ bits - 1) 0 (String c rest)) as [n | e] eqn:Hl.
  - apply parseLoop_accepts in Hl. unfold digitsValue in Hs.
    rewrite Hl in Hs. discriminate.
  - destruct e.
    + exists 0, ErrSyntax. split; [reflexivity | discriminate].
    + exists (2 ^ bits - 1), ErrRange. split; reflexivity.
Qed.

(** [ParseInt] refuses whatever is not a base-10 numeral. *)
Lemma ParseInt_not_numeral (s0 : string) :
  numeralValue s0 = None ->
  exists e, strconv.ParseInt s0 64 = Err (NumError "ParseInt" s0 e).
Proof.
  intros Hn. destruct s0 as [| c rest]; [exists ErrSyntax; reflexivity |].
  cbn [numeralValue] in Hn. unfold strconv.ParseInt.
  set (neg := Ascii.eqb c "-"%char) in *.
  set (s := if Ascii.eqb c "+"%char || neg then rest else String c rest).
  assert (Hs : digitsValue s = None).
  { subst s. destruct neg.
    - rewrite orb_true_r. destruct (digitsValue rest); [discriminate | reflexivity].
    - rewrite orb_false_r. destruct (Ascii.eqb c "+"%char); assumption. }
  destruct (parseUintRaw_not_digits s 64 Hs) as (un & e & -> & Hun).
  destruct e.
  - exists ErrSyntax. reflexivity.
  - exists ErrRange. rewrite (Hun eq_refl). destruct neg; reflexivity.
Qed.

Section ScannerClaims.

Context {ext : Extern}.

Lemma setInt_inRange (k : IntKind) (cur i : Z) :
  inRange k i -> inRange Int64 i ->
  setInt (VInt k cur) i = (None, VInt k i).
Proof.
  intros Hk H64.
  assert (Hw : 0 <= i -> wrap Uint64 i = i).
  { intros Hi. apply wrap_inRange.
    unfold inRange, minOf, maxOf in *. cbn in *. lia. }
  unfold inRange, minOf, maxOf in Hk, H64. unfold setInt, maxOf, minOf.
  destruct k; cbn in Hk, H64; cbn -[wrap];
    repeat match goal with
           | |- context [?a <? ?b] =>
               destruct (Z.ltb_spec a b); try rewrite Hw in * by lia; try lia
           end;
    cbn [orb]; unfold store; rewrite ?Hw by lia; reflexivity.
Qed.

(** On a finite float whose integer part an int64 holds, the
    conversion [int64(f)] is that integer part. *)
Lemma int64_of_float64_spec (f : Z) (x : binaryFloat) :
  0 <= f < 2 ^ 64 -> float64Value f = Some x ->
  inRange Int64 (truncTowardZero x) ->
  int64_of_float64 f = truncTowardZero x.
Proof.
  intros Hf Hx Hr.
  destruct (truncFloat64_spec f x Hf Hx) as [Hfin Ht].
  unfold int64_of_float64. rewrite Ht.
  destruct (Z.eqb_spec (Z.land (Z.shiftr f 52) 2047) 2047); [contradiction |].
  unfold inRangeb. destruct Hr as [Hlo Hhi].
  apply Z.leb_le in Hlo, Hhi. rewrite Hlo, Hhi. reflexivity.
Qed.

(** C7.  Scanning into an integer target turns true into 1 and false
    into 0; turns a finite float, a float64 or a float32, into its
    integer part, the fraction dropped toward zero, whenever that fits
    the target (12.5 into an int64 target gives 12, and -12.5 gives
    -12); and fails, leaving the target as it was, on a string that is
    not a base-10 numeral, such as "not_a_number". *)
Theorem scan_into_integer (k : IntKind) (cur : Z) :
  Scan (VInt k cur) (VBool true) = (None, VInt k 1) /\
  Scan (VInt k cur) (VBool false) = (None, VInt k 0) /\
  Scan (VInt Int64 cur) (VFloat64 0x4029000000000000)
  = (None, VInt Int64 12) /\
  Scan (VInt Int64 cur) (VFloat64 0xC029000000000000)
  = (None, VInt Int64 (-12)) /\
  Scan (VInt Int64 cur) (VFloat32 0x41480000) = (None, VInt Int64 12) /\
  Scan (VInt Int64 cur) (VFloat32 0xC1480000) = (None, VInt Int64 (-12)) /\
  (forall f x,
      wellFormed (VFloat64 f) -> float64Value f = Some x ->
      inRange Int64 (truncTowardZero x) -> inRange k (truncTowardZero x) ->
      Scan (VInt k cur) (VFloat64 f) = (None, VInt k (truncTowardZero x))) /\
  (forall f x,
      wellFormed (VFloat32 f) -> float32Value f = Some x ->
      inRange Int64 (truncTowardZero x) -> inRange k (truncTowardZero x) ->
      Scan (VInt k cur) (VFloat32 f) = (None, VInt k (truncTowardZero x))) /\
  (exists e,
      Scan (VInt k cur) (VString "not_a_number")
      = (Some (Wrap "failed to parse integer from string: %v" e),
         VInt k cur)) /\
  (forall str,
      numeralValue str = None ->
      exists e,
        Scan (VInt k cur) (VString str)
        = (Some (Wrap "failed to parse integer from string: %v" e),
           VInt k cur)).
Proof.
  assert (Hstr : forall str,
      numeralValue str = None ->
      exists e,
        Scan (VInt k cur) (VString str)
        = (Some (Wrap "failed to parse integer from string: %v" e),
           VInt k cur)).
  { intros str Hn. destruct (ParseInt_not_numeral str Hn) as [e He].
    eexists. unfold Scan, scanInt. cbn [indirect typeOf].
    rewrite He. reflexivity. }
  repeat split; try reflexivity.
  - unfold Scan, scanInt. cbn [indirect typeOf].
    apply setInt_inRange; unfold inRange, minOf, maxOf; destruct k; cbn; lia.
  - unfold Scan, scanInt. cbn [indirect typeOf].
    apply setInt_inRange; unfold inRange, minOf, maxOf; destruct k; cbn; lia.
  - intros f x Hf Hx H64 Hk. cbn [wellFormed] in Hf.
    unfold Scan, scanInt. cbn [indirect typeOf].
    rewrite (int64_of_float64_spec f x Hf Hx H64).
    apply setInt_inRange; assumption.
  - intros f x Hf Hx H64 Hk. cbn [wellFormed] in Hf.
    destruct (float64_of_float32_exact f x Hf Hx) as (Hw & c & Hc & Hy).
    assert (Hsame : truncTowardZero
                      {| negative := negative x;
                         significand := significand x * 2 ^ c;
                         exponent := exponent x - c |}
                    = truncTowardZero x)
      by (destruct x; apply trunc_scale; assumption).
    unfold Scan, scanInt. cbn [indirect typeOf].
    rewrite (int64_of_float64_spec _ _ Hw Hy) by (rewrite Hsame; assumption).
    rewrite Hsame. apply setInt_inRange; assumption.
  - apply Hstr. reflexivity.
  - exact Hstr.
Qed.

(** C8.  Scanning a nil source returns no error and leaves the target
    exactly as it was, whatever the target holds; so does scanning a
    nil pointer. *)
Theorem scan_nil_is_noop (target : any) :
  Scan target VNil = (None, target) /\
  (forall t, Scan target (VPtr t None) = (None, target)).
Proof.
  split; reflexivity.
Qed.

(** C10.  An unsigned source above the largest int64 makes the scan
    into any integer target fail with the overflow error, the target
    left as it was, also when the target is a uint64 or a uint that
    could hold the value. *)
Theorem scan_uint64_overflow (k sk : IntKind) (cur u : Z) :
  signed sk = false -> maxOf Int64 < u ->
  Scan (VInt k cur) (VInt sk u)
  = (Some (Errorf "unsigned integer value %d overflows int64"
                  [AVal (VInt Uint64 u)]),
     VInt k cur).
Proof.
  intros Hs Hu. unfold Scan, scanInt. cbn [indirect typeOf].
  rewrite Hs. apply Z.ltb_lt in Hu. rewrite Hu. reflexivity.
Qed.

End ScannerClaims.

(** ** The format codecs *)

Lemma numeralValue_FormatInt (z : Z) :
  - 2 ^ 63 <= z < 2 ^ 64 -> numeralValue (strconv.FormatInt z) = Some z.
Proof.
  intros Hz. unfold strconv.FormatInt.
  destruct (Z.ltb_spec z 0).
  - destruct (FormatUint_spec (- z) ltac:(lia)) as (Hd & Hv & Hne).
    cbn [numeralValue Ascii.eqb Bool.eqb]. unfold digitsValue.
    destruct (strconv.FormatUint (- z)) as [| c rest]; [congruence |].
    rewrite Hd, Hv. cbn. f_equal. lia.
  - destruct (FormatUint_spec z ltac:(lia)) as (Hd & Hv & Hne).
    destruct (digits_no_sign _ Hd Hne) as (c & rest & Heq & Hplus & Hminus).
    rewrite Heq in *. cbn [numeralValue]. rewrite Hplus, Hminus.
    unfold digitsValue. rewrite Hd, Hv. reflexivity.
Qed.

Lemma numeral_split (c : ascii) (rest : string) :
  let s := if Ascii.eqb c "+"%char || Ascii.eqb c "-"%char
           then rest else String c rest in
  numeralValue (String c rest)
  = option_map (fun m => if Ascii.eqb c "-"%char then - m else m)
               (digitsValue s).
Proof.
  cbn [numeralValue]. destruct (Ascii.eqb c "-"%char).
  - rewrite orb_true_r. destruct (digitsValue rest); reflexivity.
  - rewrite orb_false_r.
    destruct (Ascii.eqb c "+"%char);
      match goal with |- context [digitsValue ?s] => destruct (digitsValue s) end;
      reflexivity.
Qed.

(** [ParseInt] accepts exactly the numerals whose value fits the width,
    and returns that value. *)
Lemma ParseInt_spec (s0 : string) (bits z : Z) :
  8 <= bits <= 64 ->
  strconv.ParseInt s0 bits = Ok z <->
  numeralValue s0 = Some z /\ - 2 ^ (bits - 1) <= z <= 2 ^ (bits - 1) - 1.
Proof.
  intros Hb. destruct (pow2_half bits Hb) as [Hp Hq].
  destruct s0 as [| c rest]; [cbn; split; [discriminate | intros [? _]; discriminate] |].
  rewrite numeral_split. unfold strconv.ParseInt.
  set (neg := Ascii.eqb c "-"%char).
  set (s := if Ascii.eqb c "+"%char || neg then rest else String c rest).
  destruct (digitsValue s) as [m |] eqn:Hm; cbn [option_map].
  - apply digitsValue_inv in Hm as (Hne & Hd & -> & Hpos).
    rewrite parseUintRaw_digits by (assumption || lia).
    destruct (Z.leb_spec (decVal s 0) (2 ^ bits - 1)).
    + destruct neg; cbn [negb andb].
      * destruct (Z.ltb_spec (2 ^ (bits - 1)) (decVal s 0)).
        -- split; [discriminate | intros [[= <-] ?]; lia].
        -- split; [intros [= <-]; split; [reflexivity | lia]
                  | intros [[= <-] _]; reflexivity].
      * destruct (Z.leb_spec (2 ^ (bits - 1)) (decVal s 0)).
        -- split; [discriminate | intros [[= <-] ?]; lia].
        -- split; [intros [= <-]; split; [reflexivity | lia]
                  | intros [[= <-] _]; reflexivity].
    + destruct neg; cbn [negb andb].
      * destruct (Z.ltb_spec (2 ^ (bits - 1)) (2 ^ bits - 1)); [| lia].
        split; [discriminate | intros [[= <-] ?]; lia].
      * destruct (Z.leb_spec (2 ^ (bits - 1)) (2 ^ bits - 1)); [| lia].
        split; [discriminate | intros [[= <-] ?]; lia].
  - destruct (parseUintRaw_not_digits s bits Hm) as (un & e & -> & Hun).
    destruct e.
    + split; [discriminate | intros [? _]; discriminate].
    + rewrite (Hun eq_refl). destruct neg; cbn [negb andb].
      * destruct (Z.ltb_spec (2 ^ (bits - 1)) (2 ^ bits - 1)); [| lia].
        split; [discriminate | intros [? _]; discriminate].
      * destruct (Z.leb_spec (2 ^ (bits - 1)) (2 ^ bits - 1)); [| lia].
        split; [discriminate | intros [? _]; discriminate].
Qed.

(** [ParseUint] accepts exactly the unsigned digit strings whose value
    fits the width. *)
Lemma ParseUint_spec (s : string) (bits z : Z) :
  8 <= bits <= 64 ->
  strconv.ParseUint s bits = Ok z <->
  digitsValue s = Some z /\ z <= 2 ^ bits - 1.
Proof.
  intros Hb. unfold strconv.ParseUint.
  destruct (digitsValue s) as [m |] eqn:Hm.
  - apply digitsValue_inv in Hm as (Hne & Hd & -> & Hpos).
    rewrite parseUintRaw_digits by (assumption || lia).
    destruct (Z.leb_spec (decVal s 0) (2 ^ bits - 1)).
    + split; [intros [= <-]; split; [reflexivity | lia]
             | intros [[= <-] _]; reflexivity].
    + split; [discriminate | intros [[= <-] ?]; lia].
  - destruct (parseUintRaw_not_digits s bits Hm) as (un & e & -> & _).
    split; [discriminate | intros [? _]; discriminate].
Qed.

(** What [ParseInt] and [ParseUint] return on every input. *)
Lemma ParseInt_cases (s0 : string) (bits : Z) :
  8 <= bits <= 64 ->
  match numeralValue s0 with
  | Some z =>
      (- 2 ^ (bits - 1) <= z <= 2 ^ (bits - 1) - 1 ->
       strconv.ParseInt s0 bits = Ok z) /\
      (~ (- 2 ^ (bits - 1) <= z <= 2 ^ (bits - 1) - 1) ->
       strconv.ParseInt s0 bits = Err (NumError "ParseInt" s0 ErrRange))
  | None =>
      exists ne, strconv.ParseInt s0 bits = Err (NumError "ParseInt" s0 ne)
  end.
Proof.
  intros Hb. destruct (numeralValue s0) as [z |] eqn:Hn.
  - split; intros Hr.
    + apply ParseInt_spec; auto.
    + destruct s0 as [| c rest]; [discriminate Hn |].
      rewrite numeral_split in Hn.
      destruct (digitsValue
                  (if Ascii.eqb c "+"%char || Ascii.eqb c "-"%char
                   then rest else String c rest)) as [m |] eqn:Hm;
        [| discriminate Hn].
      cbn [option_map] in Hn. injection Hn as <-.
      eapply ParseInt_out_of_range; [reflexivity | reflexivity | reflexivity
                                    | exact Hm | exact Hb | exact Hr].
  - destruct (strconv.ParseInt s0 bits) as [z | e] eqn:Hp.
    + apply ParseInt_spec in Hp as [Hz _]; [congruence | assumption].
    + revert Hp. unfold strconv.ParseInt.
      destruct s0 as [| c rest]; [intros [= <-]; eauto |].
      destruct (strconv.parseUintRaw _ bits) as [un [[] |]];
        repeat match goal with
               | |- context [if ?b then _ else _] => destruct b
               end;
        intros [= <-]; eauto.
Qed.

Lemma ParseUint_cases (s : string) (bits : Z) :
  8 <= bits <= 64 ->
  match digitsValue s with
  | Some z =>
      (z <= 2 ^ bits - 1 -> strconv.ParseUint s bits = Ok z) /\
      (~ z <= 2 ^ bits - 1 ->
       strconv.ParseUint s bits = Err (NumError "ParseUint" s ErrRange))
  | None =>
      exists ne, strconv.ParseUint s bits = Err (NumError "ParseUint" s ne)
  end.
Proof.
  intros Hb. unfold strconv.ParseUint.
  destruct (digitsValue s) as [m |] eqn:Hm.
  - apply digitsValue_inv in Hm as (Hne & Hd & -> & Hpos).
    rewrite parseUintRaw_digits by (assumption || lia).
    destruct (Z.leb_spec (decVal s 0) (2 ^ bits - 1));
      split; intros Hr; (reflexivity || lia).
  - destruct (parseUintRaw_not_digits s bits Hm) as (un & e & -> & _).
    eauto.
Qed.

Section FormatClaims.

Context {ext : Extern} {E : Type} {enum : Enum E}.

Lemma findNameOrValue_name (e : E) (name : string) (src : any) :
  findNameOrValue e (VString name) true src
  = (let (ret, ok) := FromName e name in
     if ok then Ok ret else Err (unknownConstants src)).
Proof. reflexivity. Qed.

Lemma findNameOrValue_value (e : E) (raw src : any) :
  findNameOrValue e raw false src
  = (let (ret, ok) := FromValue e raw in
     if ok then Ok ret else Err (unknownConstants src)).
Proof. reflexivity. Qed.

Lemma miss_name (e : E) (name : string) (src : any) :
  snd (FromName e name) = false ->
  findNameOrValue e (VString name) true src = Err (unknownConstants src).
Proof.
  intros H. rewrite findNameOrValue_name.
  destruct (FromName e name) as [ret ok]. cbn in H. now subst.
Qed.

Lemma miss_value (e : E) (raw src : any) :
  snd (FromValue e raw) = false ->
  findNameOrValue e raw false src = Err (unknownConstants src).
Proof.
  intros H. rewrite findNameOrValue_value.
  destruct (FromValue e raw) as [ret ok]. cbn in H. now subst.
Qed.

(** C2.  In Name mode the text codec emits exactly the bytes of the
    instance's name, whatever raw value it is handed, and decodes by
    looking the text up by name.  In Value mode it emits the base-10
    text of the raw value: the numeral of an integer, the digits
    [strconv] formats for a float, [true] or [false], and a string or
    a byte sequence as it is; the codec built over [reflect] emits the
    same, except that it formats a float32 in the shortest of plain
    and exponent notation.  In Value mode it decodes by parsing the
    text as the raw type and looking the result up by value: for an
    integer raw type the text must be a base-10 numeral in range, a
    sign being allowed for signed types only, and any other text is
    refused with the error of [strconv]. *)
Theorem text_codec_follows_mode (e : E) (bs : list byte) :
  let str := string_of_list_byte bs in
  (SerdeFormat e = FormatName ->
   (forall b, MarshalText e b = Ok (list_byte_of_string (Name e))) /\
   UnmarshalText e bs
   = (let (ret, ok) := FromName e (string_of_list_byte bs) in
      if ok then Ok ret
      else Err (unknownConstants (VString (string_of_list_byte bs))))) /\
  (SerdeFormat e = FormatValue ->
   (forall k z,
       Val e = VInt k z -> inRange k z ->
       MarshalText e (Val e)
       = Ok (list_byte_of_string (strconv.FormatInt z)) /\
       numeralValue (strconv.FormatInt z) = Some z) /\
   (forall f,
       Val e = VFloat64 f ->
       MarshalText e (Val e)
       = Ok (list_byte_of_string (FormatFloat f "f" (-1) 64))) /\
   (forall f,
       Val e = VFloat32 f ->
       MarshalText e (Val e)
       = Ok (list_byte_of_string
               (FormatFloat (float64_of_float32 f) "f" (-1) 32)) /\
       ReflectCodec.MarshalText e (Val e)
       = Ok (list_byte_of_string
               (FormatFloat (float64_of_float32 f) "g" (-1) 32))) /\
   (forall b,
       Val e = VBool b ->
       MarshalText e (Val e)
       = Ok (list_byte_of_string (if b then "true" else "false"))) /\
   (forall s,
       Val e = VString s ->
       MarshalText e (Val e) = Ok (list_byte_of_string s)) /\
   (forall b, Val e = VBytes b -> MarshalText e (Val e) = Ok b) /\
   (wellFormed (Val e) -> primitive (Val e) = true ->
    typeOf (Val e) <> TFloat32 ->
    ReflectCodec.MarshalText e (Val e) = MarshalText e (Val e)) /\
   (forall k,
       RawType = TInt k ->
       let parsed := if signed k then numeralValue str else digitsValue str in
       let fn := if signed k then "ParseInt" else "ParseUint" in
       (forall z,
           parsed = Some z -> inRange k z ->
           UnmarshalText e bs = lookupByValue e (VInt k z) (VString str)) /\
       (forall z,
           parsed = Some z -> ~ inRange k z ->
           UnmarshalText e bs = Err (NumError fn str ErrRange)) /\
       (parsed = None ->
        exists ne, UnmarshalText e bs = Err (NumError fn str ne))) /\
   (RawType = TFloat64 ->
    UnmarshalText e bs
    = match ParseFloat str 64 with
      | Err err => Err err
      | Ok f => lookupByValue e (VFloat64 f) (VString str)
      end) /\
   (RawType = TFloat32 ->
    UnmarshalText e bs
    = match ParseFloat str 32 with
      | Err err => Err err
      | Ok f =>
          lookupByValue e (VFloat32 (float32_of_float64 f)) (VString str)
      end) /\
   (RawType = TBool ->
    UnmarshalText e bs
    = match strconv.ParseBool str with
      | Err err => Err err
      | Ok b => lookupByValue e (VBool b) (VString str)
      end) /\
   (RawType = TString ->
    UnmarshalText e bs = lookupByValue e (VString str) (VString str)) /\
   (RawType = TBytes ->
    UnmarshalText e bs = lookupByValue e (VBytes bs) (VString str)) /\
   (forall err t,
       parseStringValue (string_of_list_byte bs) (zeroValue RawType)
       = (Some err, t) ->
       UnmarshalText e bs = Err err) /\
   (forall raw,
       parseStringValue (string_of_list_byte bs) (zeroValue RawType)
       = (None, raw) ->
       UnmarshalText e bs
       = (let (ret, ok) := FromValue e raw in
          if ok then Ok ret
          else Err (unknownConstants (VString (string_of_list_byte bs)))))).
Proof.
  intros str. split; intros Hmode.
  - unfold MarshalText, UnmarshalText. rewrite Hmode. cbn [isFormatName].
    split; [reflexivity | apply findNameOrValue_name].
  - unfold MarshalText, ReflectCodec.MarshalText, UnmarshalText.
    rewrite Hmode. cbn [isFormatName]. fold str.
    assert (Hint : forall k z,
               inRange k z ->
               anyToString (VInt k z) = Ok (strconv.FormatInt z) /\
               Reflect.anyToString (VInt k z) = Ok (strconv.FormatInt z)).
    { intros k z Hz. unfold anyToString, Reflect.anyToString.
      cbn [indirect].
      unfold inRange, minOf, maxOf in Hz.
      assert (Hbits : bitSize k <= 64) by (destruct k; cbn; lia).
      destruct (signed k) eqn:Hk.
      - rewrite wrap_inRange; [split; reflexivity |].
        assert (2 ^ (bitSize k - 1) <= 2 ^ 63)
          by (apply Z.pow_le_mono_r; lia).
        unfold inRange, minOf, maxOf. cbn.
        change (2 ^ 63) with 9223372036854775808 in *. lia.
      - rewrite wrap_inRange.
        + unfold strconv.FormatInt.
          destruct (Z.ltb_spec z 0); [lia | split; reflexivity].
        + assert (2 ^ bitSize k <= 2 ^ 64)
            by (apply Z.pow_le_mono_r; lia).
          unfold inRange, minOf, maxOf. cbn.
          change (2 ^ 64) with 18446744073709551616 in *. lia. }
    repeat match goal with |- _ /\ _ => split end.
    + intros k z Hval Hz. split.
      * rewrite Hval, (proj1 (Hint k z Hz)). reflexivity.
      * apply numeralValue_FormatInt. eapply inRange_bounds; eassumption.
    + intros f ->. reflexivity.
    + intros f ->. split; reflexivity.
    + intros b ->. destruct b; reflexivity.
    + intros s ->. reflexivity.
    + intros b ->. cbn. now rewrite list_byte_of_string_of_list_byte.
    + intros Hwf Hp Hf.
      destruct (Val e); try discriminate Hp; try reflexivity.
      * cbn [wellFormed] in Hwf.
        rewrite (proj1 (Hint k z Hwf)), (proj2 (Hint k z Hwf)). reflexivity.
      * cbn in Hf. congruence.
    + intros k Hraw. rewrite Hraw. cbn [zeroValue].
      unfold parseStringValue, lookupByValue, store, failWith.
      assert (Hb : 8 <= bitSize k <= 64) by (destruct k; cbn; lia).
      destruct (pow2_half _ Hb) as [Hp Hq].
      unfold inRange, minOf, maxOf.
      destruct (signed k) eqn:Hk.
      * pose proof (ParseInt_cases str (bitSize k) Hb) as Hcases.
        destruct (numeralValue str) as [z' |].
        -- destruct Hcases as [Hok Hbad].
           split; [| split; [| discriminate]].
           ++ intros z [= <-] Hz. rewrite (Hok Hz).
              rewrite wrap_inRange
                by (unfold inRange, minOf, maxOf; now rewrite Hk).
              apply findNameOrValue_value.
           ++ intros z [= <-] Hz. rewrite (Hbad Hz). reflexivity.
        -- destruct Hcases as [ne Hne].
           split; [discriminate | split; [discriminate |]].
           intros _. exists ne. rewrite Hne. reflexivity.
      * pose proof (ParseUint_cases str (bitSize k) Hb) as Hcases.
        destruct (digitsValue str) as [z' |] eqn:Hd.
        -- destruct Hcases as [Hok Hbad].
           pose proof (digitsValue_inv _ _ Hd) as (_ & _ & _ & Hpos).
           split; [| split; [| discriminate]].
           ++ intros z [= <-] Hz. rewrite (Hok ltac:(lia)).
              rewrite wrap_inRange
                by (unfold inRange, minOf, maxOf; rewrite Hk; lia).
              apply findNameOrValue_value.
           ++ intros z [= <-] Hz. rewrite (Hbad ltac:(lia)). reflexivity.
        -- destruct Hcases as [ne Hne].
           split; [discriminate | split; [discriminate |]].
           intros _. exists ne. rewrite Hne. reflexivity.
    + intros ->. cbn [zeroValue parseStringValue].
      destruct (ParseFloat str 64); reflexivity.
    + intros ->. cbn [zeroValue parseStringValue].
      destruct (ParseFloat str 32); reflexivity.
    + intros ->. cbn [zeroValue parseStringValue].
      destruct (strconv.ParseBool str); reflexivity.
    + intros ->. reflexivity.
    + intros ->. cbn [TBytes zeroValue parseStringValue]. unfold store, str.
      rewrite list_byte_of_string_of_list_byte. reflexivity.
    + intros err t Hparse. now rewrite Hparse.
    + intros raw Hparse. rewrite Hparse. apply findNameOrValue_value.
Qed.

(** C3, as amended.  When the decoded name or value matches no member,
    the JSON, text and binary codecs fail with the unknown-constant
    error that carries the bytes handed to the codec, as a string, and
    the SQL codec with the one that carries the driver value handed to
    it; the YAML codec fails with the unknown-constant error that
    carries the decoded name or raw value it looked up. *)
Theorem unknown_constant_source (e : E) :
  (forall bs,
      let src := VString (string_of_list_byte bs) in
      (SerdeFormat e = FormatName ->
       (snd (FromName e (string_of_list_byte bs)) = false ->
        UnmarshalText e bs = Err (unknownConstants src) /\
        UnmarshalBinary e bs = Err (unknownConstants src)) /\
       (forall name,
           json_Unmarshal bs (VString "") = (None, VString name) ->
           snd (FromName e name) = false ->
           UnmarshalJSON e bs = Err (unknownConstants src))) /\
      (SerdeFormat e = FormatValue ->
       forall raw,
         snd (FromValue e raw) = false ->
         (parseStringValue (string_of_list_byte bs) (zeroValue RawType)
          = (None, raw) ->
          UnmarshalText e bs = Err (unknownConstants src)) /\
         (parseBinaryValue bs (zeroValue RawType) = (None, raw) ->
          UnmarshalBinary e bs = Err (unknownConstants src)) /\
         (json_Unmarshal bs (zeroValue RawType) = (None, raw) ->
          UnmarshalJSON e bs = Err (unknownConstants src)))) /\
  (forall src,
      (SerdeFormat e = FormatName ->
       forall name,
         Scan (VString "") src = (None, VString name) ->
         snd (FromName e name) = false ->
         SQLScan e src = Err (unknownConstants src)) /\
      (SerdeFormat e = FormatValue ->
       forall raw,
         Scan (zeroValue RawType) src = (None, raw) ->
         snd (FromValue e raw) = false ->
         SQLScan e src = Err (unknownConstants src))) /\
  (forall node,
      (SerdeFormat e = FormatName ->
       forall name,
         Decode node (VString "") = (None, VString name) ->
         snd (FromName e name) = false ->
         UnmarshalYAML e node = Err (unknownConstants (VString name))) /\
      (SerdeFormat e = FormatValue ->
       forall raw,
         snd (FromValue e raw) = false ->
         (Decode node (zeroValue RawType) = (None, raw) ->
          UnmarshalYAML e node = Err (unknownConstants raw)) /\
         (forall err partial value,
             Decode node (zeroValue RawType) = (Some err, partial) ->
             Decode node VNil = (None, value) ->
             Reflect.convertToTargetType value partial = (None, raw) ->
             UnmarshalYAML e node = Err (unknownConstants raw)))).
Proof.
  split; [| split].
  - intros bs src. split; intros Hmode.
    + split.
      * intros Hmiss. unfold UnmarshalText, UnmarshalBinary.
        rewrite Hmode. cbn [isFormatName].
        split; now apply miss_name.
      * intros name Hjson Hmiss. unfold UnmarshalJSON.
        rewrite Hmode. cbn [isFormatName]. rewrite Hjson.
        now apply miss_name.
    + intros raw Hmiss.
      unfold UnmarshalText, UnmarshalBinary, UnmarshalJSON.
      rewrite Hmode. cbn [isFormatName].
      repeat split; intros ->; now apply miss_value.
  - intros src. split; intros Hmode; unfold SQLScan; rewrite Hmode;
      cbn [isFormatName].
    + intros name -> Hmiss. now apply miss_name.
    + intros raw -> Hmiss. now apply miss_value.
  - intros node. split; intros Hmode; unfold UnmarshalYAML; rewrite Hmode;
      cbn [isFormatName].
    + intros name -> Hmiss. now apply miss_name.
    + intros raw Hmiss. split.
      * intros ->. now apply miss_value.
      * intros err partial value -> -> ->. now apply miss_value.
Qed.

(** With an integer target, [convertToTargetType] returns no error and
    leaves the target as it was, whatever non-nil source it is given. *)
Lemma convertToTargetType_integer_target (value : any) (k : IntKind)
      (cur : Z) :
  value <> VNil -> inRange k cur ->
  Reflect.convertToTargetType value (VInt k cur) = (None, VInt k cur).
Proof.
  intros Hv Hc. unfold Reflect.convertToTargetType.
  assert (inRangeb k cur = true) as Hb.
  { unfold inRangeb, inRange in *. apply andb_true_intro.
    split; apply Z.leb_le; lia. }
  destruct value; try congruence; rewrite Hb; cbn [negb]; unfold store;
    now rewrite wrap_inRange.
Qed.

(** The type-switch variant stores the source: an integer [n] that
    fits both an int64 and the target ends up in the target. *)
Lemma convertToTargetType_stores_integer (sk k : IntKind) (n cur : Z) :
  inRange Int64 n -> inRange k n ->
  convertToTargetType (VInt sk n) (VInt k cur) = (None, VInt k n).
Proof.
  intros H64 Hk. unfold convertToTargetType, toInt64.
  rewrite (wrap_inRange Int64 n H64), (wrap_inRange k n Hk).
  unfold inRange, minOf, maxOf in Hk.
  destruct k; cbn in Hk |- *; try reflexivity;
    repeat match goal with
           | |- context [?a <=? ?b] => destruct (Z.leb_spec a b); try lia
           end; reflexivity.
Qed.

End FormatClaims.

(** ** The claims at concrete inputs *)

(** C3 as stated fails for the YAML codec.  A node of the package's
    tests that holds the int 4294967395, decoded for an enum over int32
    in Value mode, hands the codec the raw value 99; no member matches,
    and the error carries 99, the coerced value, not the 4294967395 that
    was supplied. *)
Lemma yaml_error_carries_coerced_value :
  @UnmarshalYAML hostless _ (bytesStatus Int32 FormatValue) BytesActive
     (@MockYAMLNode hostless (VInt Int 4294967395))
  = Err (unknownConstants (VInt Int32 99)) /\
  unknownConstants (VInt Int32 99) <> unknownConstants (VInt Int 4294967395).
Proof.
  split; [reflexivity | discriminate].
Qed.

(** C4 fails on the code.  [convertToTargetType] with an integer target
    reads the target instead of the source: converting int64(42) into a
    zero int leaves 0 and reports success, so does converting the string
    "not_a_number"; and the YAML decoder, given a node that holds
    int32(2) for an enum over int whose member [Inactive] is 2, looks up
    0 and fails. *)
Theorem convertToTargetType_drops_integer_source :
  @Reflect.convertToTargetType hostless (VInt Int64 42) (zeroValue (TInt Int))
  = (None, VInt Int 0) /\
  @Reflect.convertToTargetType hostless (VString "not_a_number")
     (zeroValue (TInt Int))
  = (None, VInt Int 0) /\
  @UnmarshalYAML hostless _ (bytesStatus Int FormatValue) BytesActive
     (@MockYAMLNode hostless (VInt Int32 2))
  = Err (unknownConstants (VInt Int 0)).
Proof.
  repeat split.
Qed.

Lemma text_codec_follows_mode_witness :
  @MarshalText hostless _ (bytesStatus Int FormatValue) BytesActive (VInt Int 1)
  = Ok (list_byte_of_string "1") /\
  @UnmarshalText hostless _ (bytesStatus Int FormatValue) BytesActive
     (list_byte_of_string "+02")
  = Ok BytesInactive.
Proof.
  destruct (@text_codec_follows_mode hostless _ (bytesStatus Int FormatValue)
              BytesActive (list_byte_of_string "+02")) as [_ Hvalue].
  destruct (Hvalue eq_refl)
    as (Hmarshal & _ & _ & _ & _ & _ & _ & Hdecode & _).
  split.
  - apply (Hmarshal Int 1).
    + reflexivity.
    + unfold inRange, minOf, maxOf. cbn. lia.
  - destruct (Hdecode Int eq_refl) as [Hfound _].
    apply (Hfound 2).
    + reflexivity.
    + unfold inRange, minOf, maxOf. cbn. lia.
Defined.

Lemma unknown_constant_source_witness :
  @UnmarshalText hostless _ (bytesStatus Int FormatValue) BytesActive
     (list_byte_of_string "99")
  = Err (unknownConstants (VString "99")).
Proof.
  destruct (@unknown_constant_source hostless _ (bytesStatus Int FormatValue)
              BytesActive) as [Hbytes _].
  destruct (Hbytes (list_byte_of_string "99")) as [_ Hvalue].
  destruct (Hvalue eq_refl (VInt Int 99) eq_refl) as [Htext _].
  apply Htext. reflexivity.
Defined.

Lemma binary_width_enforced_witness :
  @parseBinaryValue hostless [x12] (VInt Int16 0)
  = (Some (insufficient "int16"), VInt Int16 0).
Proof.
  apply (proj2 (@binary_width_enforced hostless [x12] (VInt Int16 0)) 16 "int16").
  - unfold wellFormed, inRange, minOf, maxOf. cbn. lia.
  - reflexivity.
  - discriminate.
  - unfold len. cbn. lia.
Defined.

Lemma binary_encoding_big_endian_witness :
  exists bs, @anyToBinary hostless (VInt Int32 (-2)) = Ok bs /\
             len bs = 32 / 8 /\ bigEndianValue bs = bitsOf (VInt Int32 (-2)).
Proof.
  destruct (@binary_encoding_big_endian hostless) as (_ & _ & _ & Hwidth).
  apply (Hwidth (VInt Int32 (-2)) 32 "int32").
  - unfold wellFormed, inRange, minOf, maxOf. cbn. lia.
  - reflexivity.
Defined.

Lemma text_decode_overflow_witness :
  exists fn e,
    @parseStringValue hostless "40000" (VInt Int16 0)
    = (Some (NumError fn "40000" e), VInt Int16 0).
Proof.
  destruct (@text_decode_overflow hostless Int16 0) as (_ & _ & Hrange).
  apply (Hrange "40000" 40000).
  - reflexivity.
  - unfold inRange, minOf, maxOf. cbn. lia.
Defined.

Lemma scan_into_integer_witness :
  @Scan hostless (VInt Int8 0) (VFloat32 0xC1480000)
  = (None, VInt Int8 (-12)).
Proof.
  destruct (@scan_into_integer hostless Int8 0)
    as (_ & _ & _ & _ & _ & _ & _ & Hfloat & _).
  apply (Hfloat 0xC1480000
           {| negative := true; significand := 0xC80000; exponent := -20 |}).
  - vm_compute. split; [discriminate | reflexivity].
  - reflexivity.
  - vm_compute. split; discriminate.
  - vm_compute. split; discriminate.
Defined.

Lemma scan_uint64_overflow_witness :
  @Scan hostless (VInt Uint64 0) (VInt Uint64 9223372036854775808)
  = (Some (Errorf "unsigned integer value %d overflows int64"
                  [AVal (VInt Uint64 9223372036854775808)]),
     VInt Uint64 0).
Proof.
  apply (@scan_uint64_overflow hostless Uint64 Uint64 0 9223372036854775808).
  - reflexivity.
  - unfold maxOf. cbn. lia.
Defined.

(** * Further properties of the package *)

(** ** Integers as text *)

Section TextIntegers.

Context {ext : Extern}.

(** X1.  Text decoding into an integer target succeeds exactly on the
    base-10 numerals whose value lies in the target's range, a sign
    being allowed for signed targets only, and then stores that value;
    leading zeros and a leading plus are accepted. *)
Theorem parseStringValue_integer_accepts (k : IntKind) (cur : Z)
        (str : string) (t : any) :
  parseStringValue str (VInt k cur) = (None, t) <->
  exists z,
    (if signed k then numeralValue str else digitsValue str) = Some z /\
    inRange k z /\ t = VInt k z.
Proof.
  assert (Hb : 8 <= bitSize k <= 64) by (destruct k; cbn; lia).
  destruct (pow2_half _ Hb) as [Hp Hq].
  unfold parseStringValue, store, failWith, inRange, minOf, maxOf.
  destruct (signed k) eqn:Hk.
  - destruct (strconv.ParseInt str (bitSize k)) as [z | e] eqn:Hparse.
    + apply ParseInt_spec in Hparse as [Hn Hr]; [| assumption].
      assert (wrap k z = z) as ->
        by (apply wrap_inRange; unfold inRange, minOf, maxOf; now rewrite Hk).
      split.
      * intros [= <-]. eauto.
      * intros (z' & Hn' & _ & ->). congruence.
    + split; [discriminate |].
      intros (z & Hn & Hr & _).
      assert (strconv.ParseInt str (bitSize k) = Ok z) as Hok
        by (apply ParseInt_spec; auto).
      congruence.
  - destruct (strconv.ParseUint str (bitSize k)) as [z | e] eqn:Hparse.
    + apply ParseUint_spec in Hparse as [Hn Hr]; [| assumption].
      pose proof (digitsValue_inv _ _ Hn) as (_ & _ & _ & Hpos).
      assert (wrap k z = z) as ->
        by (apply wrap_inRange; unfold inRange, minOf, maxOf; rewrite Hk; lia).
      split.
      * intros [= <-]. exists z. repeat split; (assumption || lia).
      * intros (z' & Hn' & _ & ->). congruence.
    + split; [discriminate |].
      intros (z & Hn & Hr & _).
      assert (strconv.ParseUint str (bitSize k) = Ok z) as Hok
        by (apply ParseUint_spec; [assumption | split; [assumption | lia]]).
      congruence.
Qed.

End TextIntegers.

(** ** The scanner, beyond the claims *)

Section ScannerFacts.

Context {ext : Extern}.

Lemma setInt_outside (k : IntKind) (cur i : Z) :
  inRange Int64 i -> ~ inRange k i ->
  exists e, setInt (VInt k cur) i = (Some e, VInt k cur).
Proof.
  intros H64 Hk.
  unfold inRange, minOf, maxOf in Hk, H64. unfold setInt, maxOf, minOf.
  destruct k; cbn in Hk, H64; cbn -[wrap]; try lia;
    repeat match goal with
           | |- context [?a <? ?b] => destruct (Z.ltb_spec a b); try lia
           end;
    cbn [orb]; unfold failWith; eauto.
Qed.

Lemma scan_integer_source (k sk : IntKind) (cur n : Z) :
  inRange sk n -> n <= maxOf Int64 ->
  (inRange k n -> Scan (VInt k cur) (VInt sk n) = (None, VInt k n)) /\
  (~ inRange k n -> exists e, Scan (VInt k cur) (VInt sk n) = (Some e, VInt k cur)).
Proof.
  intros Hsk Hmax.
  assert (H64 : inRange Int64 n).
  { unfold inRange, minOf, maxOf in *. destruct sk; cbn in *; lia. }
  unfold Scan, scanInt. cbn [indirect typeOf].
  destruct (signed sk).
  - split; intros Hk; [now apply setInt_inRange | now apply setInt_outside].
  - destruct (Z.ltb_spec (maxOf Int64) n); [lia |].
    rewrite (wrap_inRange Int64 n H64).
    split; intros Hk; [now apply setInt_inRange | now apply setInt_outside].
Qed.

(** X2.  Scanning an integer source that an int64 can hold into an
    integer target stores the number when it lies in the target's range,
    and otherwise fails and leaves the target as it was. *)
Theorem scan_integer_checks_range (k sk : IntKind) (cur n : Z) :
  inRange sk n -> n <= maxOf Int64 ->
  (inRange k n -> Scan (VInt k cur) (VInt sk n) = (None, VInt k n)) /\
  (~ inRange k n -> exists e, Scan (VInt k cur) (VInt sk n) = (Some e, VInt k cur)).
Proof.
  intros Hsk Hmax.
  assert (H64 : inRange Int64 n).
  { unfold inRange, minOf, maxOf in *. destruct sk; cbn in *; lia. }
  unfold Scan, scanInt. cbn [indirect typeOf].
  destruct (signed sk).
  - split; intros Hk; [now apply setInt_inRange | now apply setInt_outside].
  - destruct (Z.ltb_spec (maxOf Int64) n); [lia |].
    rewrite (wrap_inRange Int64 n H64).
    split; intros Hk; [now apply setInt_inRange | now apply setInt_outside].
Qed.

(** X3.  A string or a byte sequence that spells a numeral an int64 can
    hold scans into an integer target exactly as that int64 does. *)
Theorem scan_numeral_as_integer (k : IntKind) (cur n : Z) (str : string) :
  numeralValue str = Some n -> inRange Int64 n ->
  Scan (VInt k cur) (VString str) = Scan (VInt k cur) (VInt Int64 n) /\
  Scan (VInt k cur) (VBytes (list_byte_of_string str))
  = Scan (VInt k cur) (VInt Int64 n).
Proof.
  intros Hn H64.
  assert (Hparse : strconv.ParseInt str 64 = Ok n).
  { apply ParseInt_spec; [lia |]. split; [assumption |].
    unfold inRange, minOf, maxOf in H64. cbn in H64. cbn. lia. }
  unfold Scan, scanInt. cbn [indirect typeOf signed].
  rewrite string_of_list_byte_of_string, Hparse. split; reflexivity.
Qed.

End ScannerFacts.

Ltac break_match :=
  match goal with
  | |- context [match ?x with _ => _ end] => destruct x
  end.

Section ScannerFrame.

Context {ext : Extern}.

Lemma setInt_frame (target : any) (i : Z) (e : error) (t : any) :
  setInt target i = (Some e, t) -> t = target.
Proof.
  unfold setInt, store, failWith.
  repeat break_match; intros [= _ <-] || discriminate; reflexivity.
Qed.

Lemma setFloat_frame (target : any) (f : Z) (e : error) (t : any) :
  setFloat target f = (Some e, t) -> t = target.
Proof.
  unfold setFloat, store, failWith.
  repeat break_match; intros [= _ <-] || discriminate; reflexivity.
Qed.

Lemma scanInt_frame (target src : any) (e : error) (t : any) :
  scanInt target src = (Some e, t) -> t = target.
Proof.
  unfold scanInt, failWith.
  repeat break_match;
    solve [ discriminate
          | intros [= _ <-]; reflexivity
          | apply setInt_frame ].
Qed.

Lemma scanFloat_frame (target src : any) (e : error) (t : any) :
  scanFloat target src = (Some e, t) -> t = target.
Proof.
  unfold scanFloat, failWith.
  repeat break_match;
    solve [ discriminate
          | intros [= _ <-]; reflexivity
          | apply setFloat_frame ].
Qed.

(** X5.  A scan that reports an error has not touched the target,
    whatever the target and the source are. *)
Theorem scan_failure_keeps_target (target src : any) (e : error) (t : any) :
  Scan target src = (Some e, t) -> t = target.
Proof.
  unfold Scan.
  destruct src; try discriminate;
    (destruct (indirect _); [| discriminate]);
    destruct (typeOf target);
    try (unfold failWith; intros [= _ <-]; reflexivity);
    try apply scanInt_frame; try apply scanFloat_frame;
    unfold scanString, scanBool, scanTime, store, failWith;
    repeat break_match;
    solve [ discriminate | intros [= _ <-]; reflexivity ].
Qed.


End ScannerFrame.

(** ** The binary codec, beyond the claims *)

Lemma byteOf_eq (z : Z) (b : byte) : z mod 256 = Zb b -> byteOf z = b.
Proof.
  intros H. transitivity (byteOf (Zb b)); [| apply byteOf_Zb].
  unfold byteOf. rewrite H, (Z.mod_small (Zb b)) by apply Zb_range.
  reflexivity.
Qed.

Lemma Uint16_value (a b : byte) :
  BigEndian.Uint16 [a; b] = Zb a * 2 ^ 8 + Zb b.
Proof.
  unfold BigEndian.Uint16, at_. cbn [nth].
  pose proof (Zb_range a). pose proof (Zb_range b).
  rewrite lor_shiftl_add by lia. lia.
Qed.

Lemma Uint32_value (a b c d : byte) :
  BigEndian.Uint32 [a; b; c; d]
  = Zb a * 2 ^ 24 + Zb b * 2 ^ 16 + Zb c * 2 ^ 8 + Zb d.
Proof.
  unfold BigEndian.Uint32, at_. cbn [nth].
  pose proof (Zb_range a). pose proof (Zb_range b).
  pose proof (Zb_range c). pose proof (Zb_range d).
  rewrite (lor_shiftl_add (Zb d)) by lia.
  rewrite (lor_shiftl_add _ (Zb b)) by lia.
  rewrite (lor_shiftl_add _ (Zb a)) by lia. lia.
Qed.

Lemma Uint64_value (a b c d e f g h : byte) :
  BigEndian.Uint64 [a; b; c; d; e; f; g; h]
  = Zb a * 2 ^ 56 + Zb b * 2 ^ 48 + Zb c * 2 ^ 40 + Zb d * 2 ^ 32
    + Zb e * 2 ^ 24 + Zb f * 2 ^ 16 + Zb g * 2 ^ 8 + Zb h.
Proof.
  unfold BigEndian.Uint64, at_. cbn [nth].
  pose proof (Zb_range a). pose proof (Zb_range b).
  pose proof (Zb_range c). pose proof (Zb_range d).
  pose proof (Zb_range e). pose proof (Zb_range f).
  pose proof (Zb_range g). pose proof (Zb_range h).
  rewrite (lor_shiftl_add (Zb h)) by lia.
  rewrite (lor_shiftl_add _ (Zb f)) by lia.
  rewrite (lor_shiftl_add _ (Zb e)) by lia.
  rewrite (lor_shiftl_add _ (Zb d)) by lia.
  rewrite (lor_shiftl_add _ (Zb c)) by lia.
  rewrite (lor_shiftl_add _ (Zb b)) by lia.
  rewrite (lor_shiftl_add _ (Zb a)) by lia. lia.
Qed.

Ltac byte_goal :=
  apply byteOf_eq; rewrite ?Z.shiftr_div_pow2 by lia;
  Z.to_euclidean_division_equations; lia.

Lemma PutUint16_Uint16 (a b : byte) :
  BigEndian.PutUint16 (BigEndian.Uint16 [a; b]) = [a; b].
Proof.
  rewrite Uint16_value. unfold BigEndian.PutUint16.
  pose proof (Zb_range a). pose proof (Zb_range b).
  repeat f_equal; byte_goal.
Qed.

Lemma PutUint32_Uint32 (a b c d : byte) :
  BigEndian.PutUint32 (BigEndian.Uint32 [a; b; c; d]) = [a; b; c; d].
Proof.
  rewrite Uint32_value. unfold BigEndian.PutUint32.
  pose proof (Zb_range a). pose proof (Zb_range b).
  pose proof (Zb_range c). pose proof (Zb_range d).
  repeat f_equal; byte_goal.
Qed.

Lemma PutUint64_Uint64 (a b c d e f g h : byte) :
  BigEndian.PutUint64 (BigEndian.Uint64 [a; b; c; d; e; f; g; h])
  = [a; b; c; d; e; f; g; h].
Proof.
  rewrite Uint64_value. unfold BigEndian.PutUint64.
  pose proof (Zb_range a). pose proof (Zb_range b).
  pose proof (Zb_range c). pose proof (Zb_range d).
  pose proof (Zb_range e). pose proof (Zb_range f).
  pose proof (Zb_range g). pose proof (Zb_range h).
  repeat f_equal; byte_goal.
Qed.

Lemma wrap_mod (k : IntKind) (z : Z) :
  (wrap k z) mod 2 ^ bitSize k = z mod 2 ^ bitSize k.
Proof.
  unfold wrap.
  destruct k; cbn [signed bitSize andb];
    repeat match goal with
           | |- context [?a <=? ?b] => destruct (Z.leb_spec a b)
           end;
    rewrite ?Z.mod_mod by lia; try reflexivity;
    Z.to_euclidean_division_equations; lia.
Qed.

Lemma wrap_congr (k : IntKind) (z z' : Z) :
  z mod 2 ^ bitSize k = z' mod 2 ^ bitSize k -> wrap k z = wrap k z'.
Proof.
  intros H. unfold wrap. cbv zeta. rewrite H. reflexivity.
Qed.

Lemma wrap_range (k : IntKind) (z : Z) : inRange k (wrap k z).
Proof.
  unfold inRange, minOf, maxOf, wrap.
  destruct k; cbn [signed bitSize andb];
    repeat match goal with
           | |- context [?a <=? ?b] => destruct (Z.leb_spec a b)
           end;
    Z.to_euclidean_division_equations; lia.
Qed.

Lemma Uint16_range (a b : byte) : 0 <= BigEndian.Uint16 [a; b] < 2 ^ 16.
Proof.
  rewrite Uint16_value. pose proof (Zb_range a). pose proof (Zb_range b). lia.
Qed.

Lemma Uint32_range (a b c d : byte) :
  0 <= BigEndian.Uint32 [a; b; c; d] < 2 ^ 32.
Proof.
  rewrite Uint32_value.
  pose proof (Zb_range a). pose proof (Zb_range b).
  pose proof (Zb_range c). pose proof (Zb_range d). lia.
Qed.

Lemma Uint64_range (a b c d e f g h : byte) :
  0 <= BigEndian.Uint64 [a; b; c; d; e; f; g; h] < 2 ^ 64.
Proof.
  rewrite Uint64_value.
  pose proof (Zb_range a). pose proof (Zb_range b).
  pose proof (Zb_range c). pose proof (Zb_range d).
  pose proof (Zb_range e). pose proof (Zb_range f).
  pose proof (Zb_range g). pose proof (Zb_range h). lia.
Qed.

(** A byte sequence of a known short length, spelled out. *)
Ltac spell_out data H :=
  unfold len in H;
  repeat (let b := fresh "b" in
          destruct data as [| b data]; cbn [List.length] in H; try lia);
  clear H.

Ltac word_range :=
  match goal with
  | |- context [BigEndian.Uint16 [?a; ?b]] => pose proof (Uint16_range a b)
  | |- context [BigEndian.Uint32 [?a; ?b; ?c; ?d]] =>
      pose proof (Uint32_range a b c d)
  | |- context [BigEndian.Uint64 [?a; ?b; ?c; ?d; ?e; ?f; ?g; ?h]] =>
      pose proof (Uint64_range a b c d e f g h)
  | |- context [at_ [?a] 0] =>
      unfold at_; cbn [nth]; pose proof (Zb_range a)
  end.

Lemma encode_signed_image (k uk : IntKind) (x : Z) :
  signed uk = false -> bitSize uk = bitSize k ->
  0 <= x < 2 ^ bitSize k ->
  wrap uk (wrap k x) = x.
Proof.
  intros Hu Hb Hx. rewrite (wrap_unsigned uk) by assumption.
  rewrite Hb, wrap_mod. apply Z.mod_small. assumption.
Qed.

Lemma byteOf_wrap_Int8 (b : byte) : byteOf (wrap Int8 (Zb b)) = b.
Proof.
  apply byteOf_eq. change 256 with (2 ^ bitSize Int8). rewrite wrap_mod.
  apply Z.mod_small. apply Zb_range.
Qed.

Ltac stored_in_range :=
  lazymatch goal with
  | |- inRange _ (wrap _ _) => apply wrap_range
  | |- _ => unfold inRange, minOf, maxOf; cbn [signed bitSize];
            word_range; lia
  end.

Ltac same_bytes :=
  f_equal;
  try lazymatch goal with
      | |- context [wrap ?uk (wrap ?k ?x)] =>
          rewrite (encode_signed_image k uk x)
            by (try reflexivity;
                lazymatch goal with
                | |- _ <= BigEndian.Uint16 _ < _ => apply Uint16_range
                | |- _ <= BigEndian.Uint32 _ < _ => apply Uint32_range
                | |- _ <= BigEndian.Uint64 _ < _ => apply Uint64_range
                end)
      end;
  lazymatch goal with
  | |- BigEndian.PutUint16 _ = _ => apply PutUint16_Uint16
  | |- BigEndian.PutUint32 _ = _ => apply PutUint32_Uint32
  | |- BigEndian.PutUint64 _ = _ => apply PutUint64_Uint64
  | |- [byteOf (wrap Int8 _)] = _ =>
      unfold at_; cbn [nth]; f_equal; apply byteOf_wrap_Int8
  | |- [byteOf _] = _ => unfold at_; cbn [nth]; f_equal; apply byteOf_Zb
  end.

Section BinaryFacts.

Context {ext : Extern}.

(** X7.  Decoding as many bytes as a fixed-width integer or float target
    takes always succeeds, yields a value of the target's type within
    its range, and encoding that value gives the same bytes back. *)
Theorem binary_decode_then_encode (data : list byte) (target : any)
        (bits : Z) (name : string) :
  wellFormed target -> fixedWidth (typeOf target) = Some (bits, name) ->
  typeOf target <> TBool -> len data = bits / 8 ->
  exists v, parseBinaryValue data target = (None, v) /\
            typeOf v = typeOf target /\ wellFormed v /\
            anyToBinary v = Ok data.
Proof.
  intros Hwf Hfw Hbool Hlen.
  destruct target; cbn in Hfw; try discriminate Hfw.
  - injection Hfw as <- <-.
    destruct k; cbn in Hlen; spell_out data Hlen;
      eexists; (split; [reflexivity |]); (split; [reflexivity |]);
      cbn [wellFormed anyToBinary];
      (split; [stored_in_range | same_bytes]).
  - injection Hfw as <- <-. cbn in Hlen. spell_out data Hlen.
    eexists. split; [reflexivity |]. split; [reflexivity |].
    cbn [wellFormed anyToBinary].
    split; [apply Uint32_range | f_equal; apply PutUint32_Uint32].
  - injection Hfw as <- <-. cbn in Hlen. spell_out data Hlen.
    eexists. split; [reflexivity |]. split; [reflexivity |].
    cbn [wellFormed anyToBinary].
    split; [apply Uint64_range | f_equal; apply PutUint64_Uint64].
  - cbn in Hbool. congruence.
  - cbn in Hwf. destruct t; try discriminate Hfw; discriminate Hwf.
Qed.

(** X8.  The binary decoder reads a fixed-width target from the first
    bytes it needs and ignores whatever follows them: no trailing data
    is ever refused. *)
Theorem binary_decode_ignores_trailing (data extra : list byte)
        (target : any) (bits : Z) (name : string) :
  wellFormed target -> fixedWidth (typeOf target) = Some (bits, name) ->
  len data = bits / 8 ->
  parseBinaryValue (data ++ extra) target = parseBinaryValue data target /\
  fst (parseBinaryValue data target) = None.
Proof.
  intros Hwf Hfw Hlen.
  assert (Hpos : forall n : nat, (Z.of_nat (S n) =? 0) = false)
    by (intros n; apply Z.eqb_neq; lia).
  destruct target; cbn in Hfw; try discriminate Hfw.
  - injection Hfw as <- <-.
    destruct k; cbn in Hlen; spell_out data Hlen;
      unfold parseBinaryValue, len; cbn [app List.length];
      rewrite !Hpos;
      repeat match goal with
             | |- context [?a <? ?b] => destruct (Z.ltb_spec a b); try lia
             end;
      split; reflexivity.
  - injection Hfw as <- <-. cbn in Hlen. spell_out data Hlen.
    unfold parseBinaryValue, len; cbn [app List.length]. rewrite !Hpos.
    repeat match goal with
           | |- context [?a <? ?b] => destruct (Z.ltb_spec a b); try lia
           end.
    split; reflexivity.
  - injection Hfw as <- <-. cbn in Hlen. spell_out data Hlen.
    unfold parseBinaryValue, len; cbn [app List.length]. rewrite !Hpos.
    repeat match goal with
           | |- context [?a <? ?b] => destruct (Z.ltb_spec a b); try lia
           end.
    split; reflexivity.
  - injection Hfw as <- <-. cbn in Hlen. spell_out data Hlen.
    unfold parseBinaryValue, len; cbn [app List.length]. rewrite !Hpos.
    repeat match goal with
           | |- context [?a <? ?b] => destruct (Z.ltb_spec a b); try lia
           end.
    split; reflexivity.
  - cbn in Hwf. destruct t; try discriminate Hfw; discriminate Hwf.
Qed.

End BinaryFacts.

(** ** The format codecs, beyond the claims *)

Section EnumFacts.

Context {ext : Extern} {E : Type} {enum : Enum E}.

Lemma hit_name (e0 e : E) (src : any) :
  FromName e0 (Name e) = (e, true) ->
  findNameOrValue e0 (VString (Name e)) true src = Ok e.
Proof.
  intros H. rewrite findNameOrValue_name, H. reflexivity.
Qed.

Lemma hit_value (e0 e : E) (src : any) :
  FromValue e0 (Val e) = (e, true) ->
  findNameOrValue e0 (Val e) false src = Ok e.
Proof.
  intros H. rewrite findNameOrValue_value, H. reflexivity.
Qed.

(** X9.  Text round trip of an enum.  In Name mode, when the name of
    [e] looks up to [e], decoding the text encoding of [e] gives [e]
    back.  In Value mode the same holds for an integer raw value in
    range that looks up to [e]. *)
Theorem text_enum_round_trip (e0 e : E) :
  SerdeFormat e0 = SerdeFormat e ->
  (SerdeFormat e = FormatName ->
   FromName e0 (Name e) = (e, true) ->
   exists bs, (forall b, MarshalText e b = Ok bs) /\
              UnmarshalText e0 bs = Ok e) /\
  (SerdeFormat e = FormatValue ->
   forall k z,
     RawType = TInt k -> Val e = VInt k z -> inRange k z ->
     FromValue e0 (Val e) = (e, true) ->
     exists bs, MarshalText e (Val e) = Ok bs /\ UnmarshalText e0 bs = Ok e).
Proof.
  intros Hsame. split; intros Hmode.
  - intros Hhit. exists (list_byte_of_string (Name e)).
    unfold MarshalText, UnmarshalText. rewrite Hsame, Hmode.
    cbn [isFormatName]. split; [reflexivity |].
    rewrite string_of_list_byte_of_string. now apply hit_name.
  - intros k z Hraw Hval Hz Hhit.
    destruct (text_int_round_trip k z 0 Hz) as (s & Hs & Hparse).
    exists (list_byte_of_string s).
    unfold MarshalText, UnmarshalText. rewrite Hsame, Hmode.
    cbn [isFormatName]. rewrite Hval, Hs. cbn [bind].
    split; [reflexivity |].
    rewrite string_of_list_byte_of_string, Hraw. cbn [zeroValue].
    rewrite Hparse, <- Hval. now apply hit_value.
Qed.

(** X10.  Binary round trip of an enum, under the same conditions: the
    name bytes in Name mode, the fixed-width big-endian bytes of an
    integer raw value in Value mode. *)
Theorem binary_enum_round_trip (e0 e : E) :
  SerdeFormat e0 = SerdeFormat e ->
  (SerdeFormat e = FormatName ->
   FromName e0 (Name e) = (e, true) ->
   exists bs, (forall b, MarshalBinary e b = Ok bs) /\
              UnmarshalBinary e0 bs = Ok e) /\
  (SerdeFormat e = FormatValue ->
   forall k z,
     RawType = TInt k -> Val e = VInt k z -> inRange k z ->
     FromValue e0 (Val e) = (e, true) ->
     exists bs, MarshalBinary e (Val e) = Ok bs /\
                UnmarshalBinary e0 bs = Ok e).
Proof.
  intros Hsame. split; intros Hmode.
  - intros Hhit. exists (list_byte_of_string (Name e)).
    unfold MarshalBinary, UnmarshalBinary. rewrite Hsame, Hmode.
    cbn [isFormatName]. split; [reflexivity |].
    rewrite string_of_list_byte_of_string. now apply hit_name.
  - intros k z Hraw Hval Hz Hhit.
    destruct (binary_int_round_trip k z 0 Hz) as (bs & Hbs & Hparse).
    exists bs.
    unfold MarshalBinary, UnmarshalBinary. rewrite Hsame, Hmode.
    cbn [isFormatName]. rewrite Hval. split; [assumption |].
    rewrite Hraw. cbn [zeroValue].
    rewrite Hparse, <- Hval. now apply hit_value.
Qed.

(** X11.  SQL round trip of an enum.  In Name mode the driver value is
    the name, and scanning it gives [e] back when the name looks up to
    [e].  In Value mode the driver value of an integer raw value that an
    int64 can hold is that int64, and scanning it gives [e] back when
    the raw value looks up to [e]. *)
Theorem sql_enum_round_trip (e0 e : E) :
  SerdeFormat e0 = SerdeFormat e ->
  (SerdeFormat e = FormatName ->
   FromName e0 (Name e) = (e, true) ->
   SQLValue e = Ok (VString (Name e)) /\
   SQLScan e0 (VString (Name e)) = Ok e) /\
  (SerdeFormat e = FormatValue ->
   forall k z,
     RawType = TInt k -> Val e = VInt k z -> inRange k z ->
     z <= maxOf Int64 ->
     FromValue e0 (Val e) = (e, true) ->
     SQLValue e = Ok (VInt Int64 z) /\ SQLScan e0 (VInt Int64 z) = Ok e).
Proof.
  intros Hsame. split; intros Hmode.
  - intros Hhit. unfold SQLValue, SQLScan. rewrite Hsame, Hmode.
    cbn [isFormatName]. split; [reflexivity |].
    cbn. now apply hit_name.
  - intros k z Hraw Hval Hz Hmax Hhit.
    assert (H64 : inRange Int64 z).
    { unfold inRange, minOf, maxOf in *. destruct k; cbn in *; lia. }
    unfold SQLValue, SQLScan. rewrite Hsame, Hmode. cbn [isFormatName].
    rewrite Hval. cbn [toInt64]. rewrite (wrap_inRange Int64 z H64).
    split; [reflexivity |].
    rewrite Hraw. cbn [zeroValue].
    destruct (scan_integer_source k Int64 0 z H64 Hmax) as [Hin _].
    rewrite (Hin Hz), <- Hval. now apply hit_value.
Qed.

(** X12.  The SQL round trip is lost for unsigned raw values above the
    largest int64: the driver value is the negative int64 with the same
    bits, and scanning it back is refused. *)
Theorem sql_large_unsigned_lost (e0 e : E) (k : IntKind) (z : Z) :
  SerdeFormat e = FormatValue -> SerdeFormat e0 = FormatValue ->
  RawType = TInt k -> Val e = VInt k z ->
  signed k = false -> inRange k z -> maxOf Int64 < z ->
  SQLValue e = Ok (VInt Int64 (z - 2 ^ 64)) /\
  z - 2 ^ 64 < 0 /\
  exists err, SQLScan e0 (VInt Int64 (z - 2 ^ 64)) = Err err.
Proof.
  intros Hmode Hmode0 Hraw Hval Hs Hz Hbig.
  assert (Hw : wrap Int64 z = z - 2 ^ 64).
  { unfold inRange, minOf, maxOf in *. rewrite Hs in Hz.
    assert (bitSize k <= 64) by (destruct k; cbn; lia).
    assert (2 ^ bitSize k <= 2 ^ 64) by (apply Z.pow_le_mono_r; lia).
    unfold wrap. cbn in *.
    destruct (Z.leb_spec 9223372036854775808 (z mod 18446744073709551616));
      Z.to_euclidean_division_equations; lia. }
  assert (Hneg : z - 2 ^ 64 < 0).
  { unfold inRange, minOf, maxOf in Hz. rewrite Hs in Hz.
    assert (bitSize k <= 64) by (destruct k; cbn; lia).
    assert (2 ^ bitSize k <= 2 ^ 64) by (apply Z.pow_le_mono_r; lia).
    lia. }
  unfold SQLValue, SQLScan. rewrite Hmode, Hmode0. cbn [isFormatName].
  rewrite Hval. cbn [toInt64]. rewrite Hw.
  split; [reflexivity |]. split; [assumption |].
  rewrite Hraw. cbn [zeroValue].
  assert (Hout : ~ inRange k (z - 2 ^ 64)).
  { unfold inRange, minOf, maxOf. rewrite Hs. lia. }
  assert (H64 : inRange Int64 (z - 2 ^ 64)).
  { rewrite <- Hw. apply wrap_range. }
  destruct (scan_integer_source k Int64 0 (z - 2 ^ 64) H64
              ltac:(unfold maxOf; cbn; lia)) as [_ Hfail].
  destruct (Hfail Hout) as [err Herr]. rewrite Herr. eauto.
Qed.

(** X13.  Whatever [SQLValue] returns without error is a value a
    database driver accepts: an int64, a float64, a bool, a byte
    sequence or a string. *)
Theorem SQLValue_is_driver_value (e : E) (v : any) :
  SQLValue e = Ok v -> driverType (typeOf v) = true.
Proof.
  unfold SQLValue. destruct (isFormatName (SerdeFormat e)).
  - intros [= <-]. reflexivity.
  - destruct (Val e); cbn [toInt64 toFloat64];
      try (intros [= <-]; reflexivity);
      (destruct (json_Marshal _); [intros [= <-]; reflexivity | discriminate]).
Qed.

(** X14.  The reflection-based [SQLValue] and [MarshalYAML] return what
    the type-switch [SQLValue] returns, for every enum whose raw value
    is of a primitive kind. *)
Theorem SQLValue_variants_agree (e : E) (b : any) :
  primitive (Val e) = true ->
  ReflectCodec.SQLValue e = SQLValue e /\
  ReflectCodec.MarshalYAML e b = SQLValue e.
Proof.
  intros Hp.
  unfold ReflectCodec.SQLValue, ReflectCodec.MarshalYAML, SQLValue,
    ReflectCodec.byKind.
  destruct (isFormatName (SerdeFormat e)); [split; reflexivity |].
  destruct (Val e); try discriminate Hp; split; reflexivity.
Qed.

End EnumFacts.

(** ** Narrowing conversions and string targets *)

Section Conversions.

Context {ext : Extern}.

(** X15.  [convertToTargetType] over the type switch treats an integer
    that does not fit the target in two ways: a signed target takes the
    low bits, reports success and ends up holding a different number,
    namely the one number of its range that agrees with the source on
    the low bits of the target's width, while an unsigned target refuses
    and is left as it was. *)
Theorem convertToTargetType_narrowing (sk k : IntKind) (n cur : Z) :
  inRange Int64 n -> ~ inRange k n ->
  (signed k = true ->
   exists m, convertToTargetType (VInt sk n) (VInt k cur) = (None, VInt k m) /\
             inRange k m /\ m <> n /\
             m mod 2 ^ bitSize k = n mod 2 ^ bitSize k /\
             (forall m', inRange k m' ->
                         m' mod 2 ^ bitSize k = n mod 2 ^ bitSize k ->
                         m' = m)) /\
  (signed k = false ->
   exists e, convertToTargetType (VInt sk n) (VInt k cur)
             = (Some e, VInt k cur)).
Proof.
  intros H64 Hout. unfold convertToTargetType, toInt64.
  rewrite (wrap_inRange Int64 n H64).
  split; intros Hs; rewrite Hs.
  - exists (wrap k n). split; [reflexivity |].
    pose proof (wrap_range k n) as Hr. split; [assumption |].
    split; [intros Heq; rewrite Heq in Hr; contradiction |].
    split; [apply wrap_mod |].
    intros m' Hm' Hmod. rewrite <- (wrap_inRange k m' Hm').
    apply wrap_congr. assumption.
  - unfold inRange, minOf, maxOf in H64, Hout. rewrite Hs in Hout.
    cbn in H64.
    destruct k; try discriminate Hs; cbn in Hout; cbn [andb];
      repeat match goal with
             | |- context [?a <=? ?b] => destruct (Z.leb_spec a b); try lia
             end;
      cbn [andb]; unfold failWith; eauto.
Qed.

(** X18.  A scan into a string target succeeds exactly when the source
    is a string or a byte sequence, and then the target holds its text;
    numbers and booleans are never turned into text. *)
Theorem scan_string_target (cur : string) (v t : any) :
  v <> VNil -> isPointer v = false -> wellFormed v ->
  Scan (VString cur) v = (None, t) <->
  (exists s, v = VString s /\ t = VString s) \/
  (exists b, v = VBytes b /\ t = VString (string_of_list_byte b)).
Proof.
  intros Hnil Hptr Hwf. unfold Scan, scanString, store, failWith.
  destruct v; try congruence; try discriminate Hptr; cbn [indirect typeOf];
    try (split; [discriminate | intros [(s0 & H & _) | (b0 & H & _)]; discriminate]).
  - split; [intros [= <-]; left; eauto |].
    intros [(s0 & [= <-] & ->) | (b0 & H & _)]; [reflexivity | discriminate].
  - split; [intros [= <-]; right; eauto |].
    intros [(s0 & H & _) | (b0 & [= <-] & ->)]; [discriminate | reflexivity].
  - cbn in Hwf. destruct t0; try discriminate Hwf;
      (split; [discriminate
              | intros [(s0 & H & _) | (b0 & H & _)]; discriminate]).
Qed.

End Conversions.

(** ** The further properties at concrete inputs *)

Lemma parseStringValue_integer_accepts_witness :
  @parseStringValue hostless "+007" (VInt Int8 0) = (None, VInt Int8 7).
Proof.
  apply (proj2 (@parseStringValue_integer_accepts hostless Int8 0 "+007"
                  (VInt Int8 7))).
  exists 7. split; [reflexivity |]. split; [| reflexivity].
  unfold inRange, minOf, maxOf. cbn. lia.
Defined.

Lemma scan_integer_checks_range_witness :
  @Scan hostless (VInt Uint8 0) (VInt Int32 200) = (None, VInt Uint8 200).
Proof.
  apply (@scan_integer_checks_range hostless Uint8 Int32 0 200).
  - unfold inRange, minOf, maxOf. cbn. lia.
  - unfold maxOf. cbn. lia.
  - unfold inRange, minOf, maxOf. cbn. lia.
Defined.

Lemma scan_numeral_as_integer_witness :
  @Scan hostless (VInt Int16 0) (VString "-42")
  = @Scan hostless (VInt Int16 0) (VInt Int64 (-42)) /\
  @Scan hostless (VInt Int16 0) (VBytes (list_byte_of_string "-42"))
  = @Scan hostless (VInt Int16 0) (VInt Int64 (-42)).
Proof.
  apply (@scan_numeral_as_integer hostless Int16 0 (-42) "-42").
  - reflexivity.
  - unfold inRange, minOf, maxOf. cbn. lia.
Defined.

Lemma scan_failure_keeps_target_witness :
  snd (@Scan hostless (VInt Int8 5) (VInt Int32 300)) = VInt Int8 5.
Proof.
  apply (@scan_failure_keeps_target hostless (VInt Int8 5) (VInt Int32 300)
           (Errorf "value %d overflows int8" [AVal (VInt Int64 300)])).
  reflexivity.
Defined.


Lemma binary_decode_then_encode_witness :
  exists v, @parseBinaryValue hostless [xff; xfe] (VInt Int16 0) = (None, v) /\
            typeOf v = TInt Int16 /\ wellFormed v /\
            @anyToBinary hostless v = Ok [xff; xfe].
Proof.
  apply (@binary_decode_then_encode hostless [xff; xfe] (VInt Int16 0) 16
           "int16").
  - cbn. unfold inRange, minOf, maxOf. cbn. lia.
  - reflexivity.
  - discriminate.
  - reflexivity.
Defined.

Lemma binary_decode_ignores_trailing_witness :
  @parseBinaryValue hostless ([x12; x34] ++ [xff]) (VInt Int16 0)
  = @parseBinaryValue hostless [x12; x34] (VInt Int16 0) /\
  fst (@parseBinaryValue hostless [x12; x34] (VInt Int16 0)) = None.
Proof.
  apply (@binary_decode_ignores_trailing hostless [x12; x34] [xff]
           (VInt Int16 0) 16 "int16").
  - cbn. unfold inRange, minOf, maxOf. cbn. lia.
  - reflexivity.
  - reflexivity.
Defined.

Lemma text_enum_round_trip_witness :
  exists bs,
    @MarshalText hostless _ (bytesStatus Int FormatValue) BytesInactive
       (VInt Int 2) = Ok bs /\
    @UnmarshalText hostless _ (bytesStatus Int FormatValue) BytesActive bs
    = Ok BytesInactive.
Proof.
  destruct (@text_enum_round_trip hostless _ (bytesStatus Int FormatValue)
              BytesActive BytesInactive eq_refl) as [_ Hvalue].
  apply (Hvalue eq_refl Int 2).
  - reflexivity.
  - reflexivity.
  - unfold inRange, minOf, maxOf. cbn. lia.
  - reflexivity.
Defined.

Lemma binary_enum_round_trip_witness :
  exists bs,
    (forall b, @MarshalBinary hostless _ (bytesStatus Int FormatName)
                 BytesInactive b = Ok bs) /\
    @UnmarshalBinary hostless _ (bytesStatus Int FormatName) BytesActive bs
    = Ok BytesInactive.
Proof.
  destruct (@binary_enum_round_trip hostless _ (bytesStatus Int FormatName)
              BytesActive BytesInactive eq_refl) as [Hname _].
  apply (Hname eq_refl). reflexivity.
Defined.

Lemma sql_enum_round_trip_witness :
  @SQLValue hostless _ (bytesStatus Int FormatValue) BytesInactive
  = Ok (VInt Int64 2) /\
  @SQLScan hostless _ (bytesStatus Int FormatValue) BytesActive (VInt Int64 2)
  = Ok BytesInactive.
Proof.
  destruct (@sql_enum_round_trip hostless _ (bytesStatus Int FormatValue)
              BytesActive BytesInactive eq_refl) as [_ Hvalue].
  apply (Hvalue eq_refl Int 2).
  - reflexivity.
  - reflexivity.
  - unfold inRange, minOf, maxOf. cbn. lia.
  - unfold maxOf. cbn. lia.
  - reflexivity.
Defined.

Lemma sql_large_unsigned_lost_witness :
  @SQLValue hostless _ wideStatus WideMax
  = Ok (VInt Int64 (18446744073709551615 - 2 ^ 64)) /\
  18446744073709551615 - 2 ^ 64 < 0 /\
  exists err,
    @SQLScan hostless _ wideStatus WideMax
       (VInt Int64 (18446744073709551615 - 2 ^ 64)) = Err err.
Proof.
  apply (@sql_large_unsigned_lost hostless _ wideStatus WideMax WideMax Uint64
           18446744073709551615).
  - reflexivity.
  - reflexivity.
  - reflexivity.
  - reflexivity.
  - reflexivity.
  - unfold inRange, minOf, maxOf. cbn. lia.
  - unfold maxOf. cbn. lia.
Defined.

Lemma SQLValue_is_driver_value_witness :
  driverType (typeOf (VInt Int64 2)) = true.
Proof.
  apply (@SQLValue_is_driver_value hostless _ (bytesStatus Int FormatValue)
           BytesInactive (VInt Int64 2)).
  reflexivity.
Defined.

Lemma SQLValue_variants_agree_witness :
  @ReflectCodec.SQLValue hostless _ (bytesStatus Int FormatValue) BytesActive
  = @SQLValue hostless _ (bytesStatus Int FormatValue) BytesActive /\
  @ReflectCodec.MarshalYAML hostless _ (bytesStatus Int FormatValue)
     BytesActive (VInt Int 1)
  = @SQLValue hostless _ (bytesStatus Int FormatValue) BytesActive.
Proof.
  apply (@SQLValue_variants_agree hostless _ (bytesStatus Int FormatValue)
           BytesActive (VInt Int 1)).
  reflexivity.
Defined.

Lemma convertToTargetType_narrowing_witness :
  exists m,
    @convertToTargetType hostless (VInt Int64 300) (VInt Int8 0)
    = (None, VInt Int8 m) /\ inRange Int8 m /\ m <> 300 /\
    m mod 2 ^ bitSize Int8 = 300 mod 2 ^ bitSize Int8 /\
    (forall m', inRange Int8 m' ->
                m' mod 2 ^ bitSize Int8 = 300 mod 2 ^ bitSize Int8 ->
                m' = m).
Proof.
  apply (@convertToTargetType_narrowing hostless Int64 Int8 300 0).
  - unfold inRange, minOf, maxOf. cbn. lia.
  - unfold inRange, minOf, maxOf. cbn. lia.
  - reflexivity.
Defined.

Lemma scan_string_target_witness :
  @Scan hostless (VString "") (VBytes [x68; x69]) = (None, VString "hi").
Proof.
  apply (proj2 (@scan_string_target hostless "" (VBytes [x68; x69])
                  (VString "hi") ltac:(discriminate) eq_refl I)).
  right. exists [x68; x69]. split; reflexivity.
Defined.

(** ** Empty and absent input *)

Section EdgeFacts.

Context {ext : Extern} {E : Type} {enum : Enum E}.

(** X19.  Decoding zero bytes.  In Name mode the text and binary codecs
    look up the empty name.  In Value mode the binary codec fails with
    the empty-data error, and the text codec of an integer enum fails
    with the syntax error of [strconv]. *)
Theorem decode_empty_input (e : E) :
  (SerdeFormat e = FormatName ->
   let lookup :=
     let (ret, ok) := FromName e "" in
     if ok then Ok ret else Err (unknownConstants (VString "")) in
   UnmarshalText e [] = lookup /\ UnmarshalBinary e [] = lookup) /\
  (SerdeFormat e = FormatValue ->
   UnmarshalBinary e [] = Err emptyData /\
   (forall k,
       RawType = TInt k ->
       UnmarshalText e []
       = Err (NumError (if signed k then "ParseInt" else "ParseUint") ""
                       ErrSyntax))).
Proof.
  split; intros Hmode; unfold UnmarshalText, UnmarshalBinary;
    rewrite Hmode; cbn [isFormatName].
  - split; apply findNameOrValue_name.
  - split; [reflexivity |].
    intros k Hraw. rewrite Hraw. cbn [zeroValue string_of_list_byte].
    unfold parseStringValue. destruct (signed k); reflexivity.
Qed.


End EdgeFacts.


Lemma decode_empty_input_witness :
  @UnmarshalBinary hostless _ (bytesStatus Int FormatValue) BytesActive []
  = Err emptyData.
Proof.
  apply (proj2 (@decode_empty_input hostless _ (bytesStatus Int FormatValue)
                  BytesActive) eq_refl).
Defined.
